(** * Hikari chat client: history manager, store adapter and streaming pipeline

    A shallow embedding of the client-side core of the Hikari chat front end:

    - [types/chat.ts]                      the records [ChatMessage], [ChatSession];
    - [utils/chatHistory.ts]               the store adapter and the session factory;
    - [components/ChatHistoryProvider.tsx] the history manager;
    - [components/ChatContainer.tsx]       [handleSendMessage], the fetch-and-stream loop.

    Conventions.  A JavaScript string is a [string]; each character stands for
    one code unit (code units 0..255).  A JavaScript number that the code uses
    as an integer (millisecond time stamps, lengths, indices) is a [Z].  What
    the code takes from its environment is explicit: the readings of
    [Date.now()] and [Math.random()] are arguments of the manager's operations
    and come from an oracle in the pipeline, the answer of [fetch] is an
    argument of [handleSendMessage], and [localStorage] and the console are
    fields of the state that is passed along.  The operations of the provider
    are applied to the state one after the other, each with the current id of
    the state it is applied to.

    The file has two parts: the definitions, in the order of the sources, and
    then the properties with their proofs. *)

From Stdlib Require Import ZArith Ascii String.
From Stdlib Require Import DecimalFacts DecimalPos DecimalZ DecimalString.
From stdpp Require Import base list strings gmap.

(** ** Data model ([types/chat.ts]) *)

Record ChatMessage := mkChatMessage {
  m_id : string;
  m_text : string;
  m_isUser : bool;
  m_timestamp : Z
}.

Record ChatSession := mkChatSession {
  s_id : string;
  s_title : string;
  s_messages : list ChatMessage;
  s_createdAt : Z;
  s_updatedAt : Z
}.

(** ** JavaScript string primitives used by the code *)

(** [`${n}`] for an integer [n]: its decimal numeral. *)
Definition string_of_Z (z : Z) : string := NilZero.string_of_int (Z.to_int z).

(** [s.substring(0, n)]. *)
Definition substring_to (n : nat) (s : string) : string := String.substring 0 n s.

(** [s.slice(n)] for [n >= 0]: the string without its first [n] code units. *)
Fixpoint slice_from (n : nat) (s : string) : string :=
  match n, s with
  | O, _ => s
  | S _, EmptyString => EmptyString
  | S n', String _ s' => slice_from n' s'
  end.

(** [s.startsWith(p)]. *)
Definition startsWith (p s : string) : bool := String.prefix p s.

(** ** Session factory ([utils/chatHistory.ts]) *)

(** [createNewChatSession()], with [now] the reading of [Date.now()]. *)
Definition createNewChatSession (now : Z) : ChatSession :=
  {| s_id := "chat-" +:+ string_of_Z now;
     s_title := "New Chat";
     s_messages := [];
     s_createdAt := now;
     s_updatedAt := now |}.

(** [generateMessageId()], with [now] the reading of [Date.now()] and [rnd]
    the seven characters [Math.random().toString(36).substring(2, 9)]. *)
Definition generateMessageId (now : Z) (rnd : string) : string :=
  "msg-" +:+ string_of_Z now +:+ "-" +:+ rnd.

(** ** History manager ([components/ChatHistoryProvider.tsx]) *)

(** The three [useState] cells of the provider. *)
Record Provider := mkProvider {
  chatSessions : list ChatSession;
  currentChatSessionId : option string;   (* [string | null] *)
  isLoading : bool
}.

(** The state before the mount effect has run. *)
Definition initialProvider : Provider :=
  {| chatSessions := []; currentChatSessionId := None; isLoading := true |}.

Definition setChatSessions (l : list ChatSession) (st : Provider) : Provider :=
  {| chatSessions := l;
     currentChatSessionId := currentChatSessionId st;
     isLoading := isLoading st |}.

Definition setCurrentChatSessionId (c : option string) (st : Provider) : Provider :=
  {| chatSessions := chatSessions st;
     currentChatSessionId := c;
     isLoading := isLoading st |}.

Definition setIsLoading (b : bool) (st : Provider) : Provider :=
  {| chatSessions := chatSessions st;
     currentChatSessionId := currentChatSessionId st;
     isLoading := b |}.

(** The mount effect, given the [history] that [loadChatHistory()] returned
    and the reading [now] that [createNewChatSession()] takes when the
    history is empty. *)
Definition initialize (history : list ChatSession) (now : Z) (st : Provider) : Provider :=
  let st := setChatSessions history st in
  let st :=
    match history with
    | first :: _ => setCurrentChatSessionId (Some (s_id first)) st
    | [] =>
        let newSession := createNewChatSession now in
        setCurrentChatSessionId (Some (s_id newSession))
          (setChatSessions [newSession] st)
    end in
  setIsLoading false st.

(** [startNewChat()]; the success toast it shows is not part of the
    provider's state. *)
Definition startNewChat (now : Z) (st : Provider) : Provider :=
  let newSession := createNewChatSession now in
  setCurrentChatSessionId (Some (s_id newSession))
    (setChatSessions (newSession :: chatSessions st) st).

Definition selectChatSession (sessionId : string) (st : Provider) : Provider :=
  setCurrentChatSessionId (Some sessionId) st.

(** The title given to a session by its first message when that is a user
    message: [text.substring(0, 30) + (text.length > 30 ? "..." : "")]. *)
Definition titleOf (text : string) : string :=
  substring_to 30 text +:+ (if (30 <? String.length text)%nat then "..." else "").

(** The callback of [prevSessions.map] in [addMessageToCurrentChat]. *)
Definition appendTo (cur : string) (newMessage : ChatMessage) (text : string)
    (isUser : bool) (upd : Z) (session : ChatSession) : ChatSession :=
  if String.eqb (s_id session) cur then
    {| s_id := s_id session;
       s_title :=
         if (length (s_messages session) =? 0)%nat && isUser
         then titleOf text else s_title session;
       s_messages := s_messages session ++ [newMessage];
       s_createdAt := s_createdAt session;
       s_updatedAt := upd |}
  else session.

(** [addMessageToCurrentChat(text, isUser)].  [mid] is what
    [generateMessageId()] returned, [ts] the reading of [Date.now()] for the
    message and [upd] the one for [updatedAt].  [!currentChatSessionId] holds
    for [null] and for the empty string. *)
Definition addMessageToCurrentChat (text : string) (isUser : bool)
    (mid : string) (ts upd : Z) (st : Provider) : Provider :=
  match currentChatSessionId st with
  | None => st
  | Some cur =>
      if String.eqb cur "" then st
      else
        let newMessage :=
          {| m_id := mid; m_text := text; m_isUser := isUser; m_timestamp := ts |} in
        setChatSessions
          (appendTo cur newMessage text isUser upd <$> chatSessions st) st
  end.

(** The callback of [prevSessions.map] in [updateLastAIMessage]. *)
Definition patchLast (cur : string) (newText : string) (ts upd : Z)
    (session : ChatSession) : ChatSession :=
  if String.eqb (s_id session) cur then
    let lastMessageIndex := (Z.of_nat (length (s_messages session)) - 1)%Z in
    match (if (0 <=? lastMessageIndex)%Z
           then s_messages session !! Z.to_nat lastMessageIndex else None) with
    | Some lastMessage =>
        if negb (m_isUser lastMessage) then
          let updatedMessages :=
            <[Z.to_nat lastMessageIndex :=
                {| m_id := m_id lastMessage;
                   m_text := newText;
                   m_isUser := m_isUser lastMessage;
                   m_timestamp := ts |}]> (s_messages session) in
          {| s_id := s_id session;
             s_title := s_title session;
             s_messages := updatedMessages;
             s_createdAt := s_createdAt session;
             s_updatedAt := upd |}
        else session
    | None => session
    end
  else session.

(** [updateLastAIMessage(newText)], with [ts] and [upd] the readings of
    [Date.now()] for the message and for [updatedAt]. *)
Definition updateLastAIMessage (newText : string) (ts upd : Z) (st : Provider) : Provider :=
  match currentChatSessionId st with
  | None => st
  | Some cur =>
      if String.eqb cur "" then st
      else setChatSessions (patchLast cur newText ts upd <$> chatSessions st) st
  end.

(** [currentChatMessages]: the messages of the first session whose id is the
    current one, [[]] when there is none. *)
Definition currentSession (st : Provider) : option ChatSession :=
  match currentChatSessionId st with
  | None => None
  | Some cur => List.find (fun session => String.eqb (s_id session) cur) (chatSessions st)
  end.

Definition currentChatMessages (st : Provider) : list ChatMessage :=
  match currentSession st with
  | Some session => s_messages session
  | None => []
  end.

(** *** Sequences of manager calls *)

(** One call of a manager operation, with the readings it takes. *)
Inductive Call :=
| StartNewChat (now : Z)
| SelectChatSession (sessionId : string)
| AddMessage (text : string) (isUser : bool) (mid : string) (ts upd : Z)
| UpdateLastAIMessage (newText : string) (ts upd : Z).

Definition step (c : Call) (st : Provider) : Provider :=
  match c with
  | StartNewChat now => startNewChat now st
  | SelectChatSession sessionId => selectChatSession sessionId st
  | AddMessage text isUser mid ts upd => addMessageToCurrentChat text isUser mid ts upd st
  | UpdateLastAIMessage newText ts upd => updateLastAIMessage newText ts upd st
  end.

Definition run (calls : list Call) (st : Provider) : Provider :=
  fold_left (fun st c => step c st) calls st.

(** Some session of the list has the id [sessionId]. *)
Definition knownId (sessionId : string) (st : Provider) : bool :=
  existsb (fun session => String.eqb (s_id session) sessionId) (chatSessions st).

(** The current-session reference is not dangling. *)
Definition currentKnown (st : Provider) : bool :=
  match currentChatSessionId st with
  | None => true
  | Some cur => knownId cur st
  end.

(** Every [selectChatSession] of the sequence is called with the id of a
    session that is in the list at the time of the call. *)
Fixpoint selectsKnown (calls : list Call) (st : Provider) : bool :=
  match calls with
  | [] => true
  | c :: rest =>
      match c with
      | SelectChatSession sessionId => knownId sessionId st
      | _ => true
      end && selectsKnown rest (step c st)
  end.

(** A session whose last message is a user message, or that has none. *)
Definition endsWithUserOrEmpty (session : ChatSession) : bool :=
  match last (s_messages session) with
  | None => true
  | Some m => m_isUser m
  end.

(** The session is one the current id designates. *)
Definition isCurrent (st : Provider) (session : ChatSession) : bool :=
  match currentChatSessionId st with
  | Some cur => String.eqb (s_id session) cur
  | None => false
  end.

(** Every session the current id designates ends with a user message or is
    empty (with pairwise distinct ids there is at most one such session). *)
Definition currentEndsWithUserOrEmpty (st : Provider) : bool :=
  forallb (fun session => implb (isCurrent st session) (endsWithUserOrEmpty session))
    (chatSessions st).

(** One call of [addMessageToCurrentChat], with its readings. *)
Record AddCall := mkAddCall {
  a_text : string;
  a_isUser : bool;
  a_mid : string;
  a_ts : Z;
  a_upd : Z
}.

Definition addCall (c : AddCall) (st : Provider) : Provider :=
  addMessageToCurrentChat (a_text c) (a_isUser c) (a_mid c) (a_ts c) (a_upd c) st.

Definition addAll (calls : list AddCall) (st : Provider) : Provider :=
  fold_left (fun st c => addCall c st) calls st.

(** The state right after the mount effect on an empty store, the clock
    reading 0: one empty session, which is current. *)
Definition freshProvider : Provider := initialize [] 0 initialProvider.

(** ** JSON, as [JSON.stringify] writes it and [JSON.parse] reads it

    The values of JSON.  Numbers are the integers; an object is the list of
    its members in property order.  (JavaScript enumerates keys that are array
    indices first; no object of this program has such a key.)

    [JSON_parse] below reads the JSON grammar with these limits, which the
    texts written by [JSON_stringify] and the records of the wire protocol
    stay within: a number literal with a fraction or an exponent, and an
    escape [\uXXXX] above code unit 255, are refused like a syntax error. *)

#[local] Set Warnings "-register-all".

Inductive json :=
| JNull
| JBool (b : bool)
| JNum (z : Z)
| JStr (s : string)
| JArr (items : list json)
| JObj (members : list (string * json)).

(** Characters that cannot be written inside a string literal. *)
Definition DQUOTE : ascii := "034"%char.
Definition BACKSLASH : ascii := "092"%char.
Definition NEWLINE : ascii := "010"%char.

(** [quoted s] is [s] between double quotes, nothing escaped. *)
Definition quoted (s : string) : string :=
  String DQUOTE (s +:+ String DQUOTE EmptyString).

Definition hexdigit (n : N) : ascii :=
  if (n <? 10)%N then ascii_of_N (48 + n) else ascii_of_N (87 + n).

(** One code unit inside a JSON string (the [QuoteJSONString] table). *)
Definition escape_char (c : ascii) : string :=
  if Ascii.eqb c DQUOTE then String BACKSLASH (String DQUOTE EmptyString)
  else if Ascii.eqb c BACKSLASH then String BACKSLASH (String BACKSLASH EmptyString)
  else if Ascii.eqb c "008" then String BACKSLASH "b"
  else if Ascii.eqb c "012" then String BACKSLASH "f"
  else if Ascii.eqb c "010" then String BACKSLASH "n"
  else if Ascii.eqb c "013" then String BACKSLASH "r"
  else if Ascii.eqb c "009" then String BACKSLASH "t"
  else if (N_of_ascii c <? 32)%N then
    String BACKSLASH ("u00" +:+
      String (hexdigit (N_of_ascii c / 16)) (String (hexdigit (N_of_ascii c mod 16)) EmptyString))
  else String c EmptyString.

Fixpoint escape (s : string) : string :=
  match s with
  | EmptyString => EmptyString
  | String c r => escape_char c +:+ escape r
  end.

Definition quote (s : string) : string :=
  String DQUOTE (escape s +:+ String DQUOTE EmptyString).

(** [parts.join(sep)]. *)
Fixpoint join (sep : string) (parts : list string) : string :=
  match parts with
  | [] => EmptyString
  | [p] => p
  | p :: rest => p +:+ sep +:+ join sep rest
  end.

(** [JSON.stringify(v)], no indentation. *)
Fixpoint JSON_stringify (v : json) : string :=
  match v with
  | JNull => "null"
  | JBool b => if b then "true" else "false"
  | JNum z => string_of_Z z
  | JStr s => quote s
  | JArr items => "[" +:+ join "," (map JSON_stringify items) +:+ "]"
  | JObj members =>
      "{" +:+ join "," (map (fun kv => quote (fst kv) +:+ ":" +:+ JSON_stringify (snd kv)) members)
          +:+ "}"
  end.

(** *** The parser *)

Definition is_ws (c : ascii) : bool :=
  Ascii.eqb c " " || Ascii.eqb c "009" || Ascii.eqb c "010" || Ascii.eqb c "013".

Fixpoint skip_ws (s : string) : string :=
  match s with
  | String c r => if is_ws c then skip_ws r else s
  | EmptyString => s
  end.

(** [expect p s]: [s] without its prefix [p], when it has it. *)
Fixpoint expect (p s : string) : option string :=
  match p, s with
  | EmptyString, _ => Some s
  | String a p', String b s' => if Ascii.eqb a b then expect p' s' else None
  | String _ _, EmptyString => None
  end.

Definition hexval (c : ascii) : option N :=
  let n := N_of_ascii c in
  if (48 <=? n)%N && (n <=? 57)%N then Some (n - 48)%N
  else if (97 <=? n)%N && (n <=? 102)%N then Some (n - 87)%N
  else if (65 <=? n)%N && (n <=? 70)%N then Some (n - 55)%N
  else None.

(** The character a one-letter escape stands for. *)
Definition unescape (e : ascii) : option ascii :=
  if Ascii.eqb e DQUOTE then Some DQUOTE
  else if Ascii.eqb e BACKSLASH then Some BACKSLASH
  else if Ascii.eqb e "/" then Some "/"%char
  else if Ascii.eqb e "b" then Some "008"%char
  else if Ascii.eqb e "f" then Some "012"%char
  else if Ascii.eqb e "n" then Some "010"%char
  else if Ascii.eqb e "r" then Some "013"%char
  else if Ascii.eqb e "t" then Some "009"%char
  else None.

(** The characters of a string literal after its opening quote, up to the
    closing one, and what follows it.  An escape [\uXXXX] above code unit 255
    is outside the strings of this development and is refused. *)
Fixpoint parse_string (s : string) : option (string * string) :=
  match s with
  | EmptyString => None
  | String c r =>
      if Ascii.eqb c DQUOTE then Some (EmptyString, r)
      else if Ascii.eqb c BACKSLASH then
        match r with
        | EmptyString => None
        | String e r1 =>
            if Ascii.eqb e "u" then
              match r1 with
              | String h1 (String h2 (String h3 (String h4 r2))) =>
                  match hexval h1, hexval h2, hexval h3, hexval h4 with
                  | Some a, Some b, Some c', Some d =>
                      let code := (((a * 16 + b) * 16 + c') * 16 + d)%N in
                      if (code <? 256)%N then
                        match parse_string r2 with
                        | Some (str, rest) => Some (String (ascii_of_N code) str, rest)
                        | None => None
                        end
                      else None
                  | _, _, _, _ => None
                  end
              | _ => None
              end
            else
              match unescape e with
              | Some c' =>
                  match parse_string r1 with
                  | Some (str, rest) => Some (String c' str, rest)
                  | None => None
                  end
              | None => None
              end
        end
      else if (N_of_ascii c <? 32)%N then None
      else
        match parse_string r with
        | Some (str, rest) => Some (String c str, rest)
        | None => None
        end
  end.

Definition digit (c : ascii) : option (Decimal.uint → Decimal.uint) :=
  if Ascii.eqb c "0" then Some Decimal.D0
  else if Ascii.eqb c "1" then Some Decimal.D1
  else if Ascii.eqb c "2" then Some Decimal.D2
  else if Ascii.eqb c "3" then Some Decimal.D3
  else if Ascii.eqb c "4" then Some Decimal.D4
  else if Ascii.eqb c "5" then Some Decimal.D5
  else if Ascii.eqb c "6" then Some Decimal.D6
  else if Ascii.eqb c "7" then Some Decimal.D7
  else if Ascii.eqb c "8" then Some Decimal.D8
  else if Ascii.eqb c "9" then Some Decimal.D9
  else None.

(** The longest run of decimal digits at the head of [s], and the rest. *)
Fixpoint scan_digits (s : string) : Decimal.uint * string :=
  match s with
  | EmptyString => (Decimal.Nil, s)
  | String c r =>
      match digit c with
      | Some d => let '(ds, rest) := scan_digits r in (d ds, rest)
      | None => (Decimal.Nil, s)
      end
  end.

Definition starts_fraction (s : string) : bool :=
  match s with
  | String c _ => Ascii.eqb c "." || Ascii.eqb c "e" || Ascii.eqb c "E"
  | EmptyString => false
  end.

(** A number literal: an optional minus sign, then [0] or a digit other than
    [0] followed by digits.  A literal that goes on with a
    fraction or an exponent is not an integer literal and is refused here:
    such numbers are outside the values of this development. *)
Definition parse_number (s : string) : option (json * string) :=
  let '(negative, s1) :=
    match s with
    | String c r => if Ascii.eqb c "-" then (true, r) else (false, s)
    | EmptyString => (false, s)
    end in
  let '(ds, rest) := scan_digits s1 in
  match ds with
  | Decimal.Nil => None
  | Decimal.D0 (Decimal.D0 _ | Decimal.D1 _ | Decimal.D2 _ | Decimal.D3 _ | Decimal.D4 _
               | Decimal.D5 _ | Decimal.D6 _ | Decimal.D7 _ | Decimal.D8 _ | Decimal.D9 _) => None
  | _ =>
      if starts_fraction rest then None
      else Some (JNum (Z.of_int (if negative then Decimal.Neg ds else Decimal.Pos ds)), rest)
  end.

(** [set_member k v members]: the assignment [obj[k] = v] on the members of an
    object: a key that is there keeps its place and takes the new value. *)
Fixpoint set_member (k : string) (v : json) (members : list (string * json))
    : list (string * json) :=
  match members with
  | [] => [(k, v)]
  | (k', v') :: rest =>
      if String.eqb k' k then (k', v) :: rest else (k', v') :: set_member k v rest
  end.

Definition build_object (members : list (string * json)) : json :=
  JObj (fold_left (fun acc kv => set_member (fst kv) (snd kv) acc) members []).

(** One JSON value at the head of [s] (after white space), and the rest.
    [fuel] bounds the nesting and the number of items. *)
Fixpoint parse_value (fuel : nat) (s : string) : option (json * string) :=
  match fuel with
  | O => None
  | S fuel =>
      match skip_ws s with
      | EmptyString => None
      | String c r =>
          if Ascii.eqb c "n" then
            match expect "ull" r with Some rest => Some (JNull, rest) | None => None end
          else if Ascii.eqb c "t" then
            match expect "rue" r with Some rest => Some (JBool true, rest) | None => None end
          else if Ascii.eqb c "f" then
            match expect "alse" r with Some rest => Some (JBool false, rest) | None => None end
          else if Ascii.eqb c DQUOTE then
            match parse_string r with
            | Some (str, rest) => Some (JStr str, rest)
            | None => None
            end
          else if Ascii.eqb c "[" then
            match skip_ws r with
            | String c' r' =>
                if Ascii.eqb c' "]" then Some (JArr [], r')
                else
                  match parse_elements fuel r with
                  | Some (items, rest) => Some (JArr items, rest)
                  | None => None
                  end
            | EmptyString => None
            end
          else if Ascii.eqb c "{" then
            match skip_ws r with
            | String c' r' =>
                if Ascii.eqb c' "}" then Some (JObj [], r')
                else
                  match parse_members fuel r with
                  | Some (members, rest) => Some (build_object members, rest)
                  | None => None
                  end
            | EmptyString => None
            end
          else parse_number (String c r)
      end
  end

with parse_elements (fuel : nat) (s : string) : option (list json * string) :=
  match fuel with
  | O => None
  | S fuel =>
      match parse_value fuel s with
      | Some (v, r) =>
          match skip_ws r with
          | String c r' =>
              if Ascii.eqb c "," then
                match parse_elements fuel r' with
                | Some (vs, rest) => Some (v :: vs, rest)
                | None => None
                end
              else if Ascii.eqb c "]" then Some ([v], r')
              else None
          | EmptyString => None
          end
      | None => None
      end
  end

with parse_members (fuel : nat) (s : string) : option (list (string * json) * string) :=
  match fuel with
  | O => None
  | S fuel =>
      match skip_ws s with
      | String q r0 =>
          if Ascii.eqb q DQUOTE then
            match parse_string r0 with
            | Some (k, r1) =>
                match skip_ws r1 with
                | String colon r2 =>
                    if Ascii.eqb colon ":" then
                      match parse_value fuel r2 with
                      | Some (v, r3) =>
                          match skip_ws r3 with
                          | String c r' =>
                              if Ascii.eqb c "," then
                                match parse_members fuel r' with
                                | Some (ms, rest) => Some ((k, v) :: ms, rest)
                                | None => None
                                end
                              else if Ascii.eqb c "}" then Some ([(k, v)], r')
                              else None
                          | EmptyString => None
                          end
                      | None => None
                      end
                    else None
                | EmptyString => None
                end
            | None => None
            end
          else None
      | EmptyString => None
      end
  end.

(** [JSON.parse(text)]; [None] stands for the [SyntaxError] it throws. *)
Definition JSON_parse (text : string) : option json :=
  match parse_value (2 * String.length text + 2) text with
  | Some (v, rest) =>
      match skip_ws rest with
      | EmptyString => Some v
      | String _ _ => None
      end
  | None => None
  end.

(** *** What the code does with a parsed value *)

(** [data[k]] for the keys the code reads ([error], [content], [done], the
    fields of the records): [None] is the [TypeError] on [null], [Some None]
    is [undefined]. *)
Definition member (k : string) (data : json) : option (option json) :=
  match data with
  | JNull => None
  | JObj members =>
      Some (snd <$> List.find (fun kv => String.eqb (fst kv) k) members)
  | _ => Some None
  end.

(** [ToBoolean]: what [if (x)] tests. *)
Definition truthy (x : option json) : bool :=
  match x with
  | None => false
  | Some JNull => false
  | Some (JBool b) => b
  | Some (JNum z) => negb (z =? 0)%Z
  | Some (JStr s) => negb (String.eqb s EmptyString)
  | Some (JArr _) => true
  | Some (JObj _) => true
  end.

(** [ToString]: what [s + x] and [new Error(x)] make of [x]. *)
Fixpoint toString (v : json) : string :=
  match v with
  | JNull => "null"
  | JBool b => if b then "true" else "false"
  | JNum z => string_of_Z z
  | JStr s => s
  | JArr items =>
      join "," (map (fun item => match item with JNull => EmptyString | _ => toString item end)
                  items)
  | JObj _ => "[object Object]"
  end.

(** ** Store adapter ([utils/chatHistory.ts]) *)

(** The objects the code builds for a message and for a session, with their
    properties in the order in which the object literals create them (a spread
    [{...session, ...}] keeps that order). *)
Definition message_to_json (m : ChatMessage) : json :=
  JObj [("id", JStr (m_id m)); ("text", JStr (m_text m));
        ("isUser", JBool (m_isUser m)); ("timestamp", JNum (m_timestamp m))].

Definition session_to_json (session : ChatSession) : json :=
  JObj [("id", JStr (s_id session)); ("title", JStr (s_title session));
        ("messages", JArr (map message_to_json (s_messages session)));
        ("createdAt", JNum (s_createdAt session));
        ("updatedAt", JNum (s_updatedAt session))].

Definition history_to_json (history : list ChatSession) : json :=
  JArr (map session_to_json history).

Definition message_of_json (v : json) : option ChatMessage :=
  match v with
  | JObj [(k1, JStr i); (k2, JStr t); (k3, JBool u); (k4, JNum ts)] =>
      if String.eqb k1 "id" && String.eqb k2 "text" && String.eqb k3 "isUser"
         && String.eqb k4 "timestamp"
      then Some {| m_id := i; m_text := t; m_isUser := u; m_timestamp := ts |}
      else None
  | _ => None
  end.

Definition session_of_json (v : json) : option ChatSession :=
  match v with
  | JObj [(k1, JStr i); (k2, JStr t); (k3, JArr ms); (k4, JNum c); (k5, JNum u)] =>
      if String.eqb k1 "id" && String.eqb k2 "title" && String.eqb k3 "messages"
         && String.eqb k4 "createdAt" && String.eqb k5 "updatedAt"
      then
        match mapM message_of_json ms with
        | Some msgs =>
            Some {| s_id := i; s_title := t; s_messages := msgs;
                    s_createdAt := c; s_updatedAt := u |}
        | None => None
        end
      else None
  | _ => None
  end.

(** What [loadChatHistory] returns.  The code passes the value of
    [JSON.parse] on as a [ChatSession[]] without looking at it: [Sessions h]
    when that value is the array of the session objects [h], [Untyped v] for
    any other value [v]. *)
Inductive Loaded :=
| Sessions (history : list ChatSession)
| Untyped (v : json).

Definition asSessions (v : json) : Loaded :=
  match v with
  | JArr items =>
      match mapM session_of_json items with
      | Some history => Sessions history
      | None => Untyped v
      end
  | _ => Untyped v
  end.

Inductive LogEntry :=
| ConsoleError (msg : string)
| ConsoleWarn (msg : string).

(** The part of the browser the adapter touches: whether there is a [window],
    the entries of [localStorage], how long a value [setItem] accepts before
    it throws its quota error, and what was written to the console. *)
Record Browser := mkBrowser {
  hasWindow : bool;
  localStorage : gmap string string;
  quota : nat;
  console : list LogEntry
}.

Definition CHAT_HISTORY_KEY : string := "hikari_chat_history".

Definition log (e : LogEntry) (b : Browser) : Browser :=
  {| hasWindow := hasWindow b; localStorage := localStorage b;
     quota := quota b; console := console b ++ [e] |}.

(** [localStorage.getItem(k)]; [None] is [null]. *)
Definition getItem (k : string) (b : Browser) : option string := localStorage b !! k.

(** [localStorage.setItem(k, v)]; [None] is the exception it throws. *)
Definition setItem (k v : string) (b : Browser) : option Browser :=
  if (String.length v <=? quota b)%nat then
    Some {| hasWindow := hasWindow b; localStorage := <[k := v]> (localStorage b);
            quota := quota b; console := console b |}
  else None.

Definition loadChatHistory (b : Browser) : Loaded * Browser :=
  if negb (hasWindow b) then (Sessions [], b)
  else
    match getItem CHAT_HISTORY_KEY b with
    | None => (Sessions [], b)
    | Some history =>
        if String.eqb history EmptyString then (Sessions [], b)
        else
          match JSON_parse history with
          | Some v => (asSessions v, b)
          | None =>
              (Sessions [],
               log (ConsoleError "Failed to load chat history from localStorage:") b)
          end
    end.

Definition saveChatHistory (history : list ChatSession) (b : Browser) : Browser :=
  if negb (hasWindow b) then b
  else
    match setItem CHAT_HISTORY_KEY (JSON_stringify (history_to_json history)) b with
    | Some b' => b'
    | None => log (ConsoleError "Failed to save chat history to localStorage:") b
    end.

(** The provider's persistence effect: once loading is over, every change of
    the sessions is followed by a save of the whole list. *)
Definition persist (st : Provider) (b : Browser) : Browser :=
  if isLoading st then b else saveChatHistory (chatSessions st) b.

(** *** Measures and well-formedness used in the proofs about the parser *)

(** Fuel that [parse_value] needs to read back [JSON_stringify v]. *)
Fixpoint need (v : json) : nat :=
  match v with
  | JArr items => S (fold_right (fun item n => S (Nat.max (need item) n)) 0 items)
  | JObj members =>
      S (fold_right (fun kv n => S (Nat.max (need (snd kv)) n)) 0 members)
  | _ => 1
  end.

(** No object has two members with the same key. *)
Fixpoint distinct_keys (v : json) : bool :=
  match v with
  | JArr items => forallb distinct_keys items
  | JObj members =>
      bool_decide (NoDup (map fst members)) &&
      forallb (fun kv => distinct_keys (snd kv)) members
  | _ => true
  end.

(** What may follow a value in the text [JSON_stringify] writes. *)
Definition closes (rest : string) : bool :=
  match rest with
  | EmptyString => true
  | String c _ => Ascii.eqb c "," || Ascii.eqb c "]" || Ascii.eqb c "}"
  end.

(** A numeral starts with a minus sign or a digit. *)
Definition starts_number (s : string) : Prop :=
  ∃ c r, s = String c r ∧ (c = "-"%char ∨ digit c ≠ None).

(** The characters a JSON value can start with. *)
Definition value_head (c : ascii) : bool :=
  Ascii.eqb c "n" || Ascii.eqb c "t" || Ascii.eqb c "f" || Ascii.eqb c DQUOTE
  || Ascii.eqb c "[" || Ascii.eqb c "{" || Ascii.eqb c "-"
  || match digit c with Some _ => true | None => false end.

(** Fuel that [parse_elements] needs for the items of an array. *)
Definition need_items (items : list json) : nat :=
  fold_right (fun item n => S (Nat.max (need item) n)) 0 items.

Definition need_members (members : list (string * json)) : nat :=
  fold_right (fun kv n => S (Nat.max (need (snd kv)) n)) 0 members.

(** The text of one member of an object. *)
Definition member_text (kv : string * json) : string :=
  quote (fst kv) +:+ ":" +:+ JSON_stringify (snd kv).

(** [parse_value] reads [v] back from the text [JSON_stringify] writes for it,
    whatever closes the value after it. *)
Definition reads_back (v : json) : Prop :=
  ∀ fuel rest, need v ≤ fuel → closes rest = true →
    parse_value fuel (JSON_stringify v +:+ rest) = Some (v, rest).

(** ** The streaming pipeline ([components/ChatContainer.tsx]) *)

(** Modelled from the spec: [utils/toast.ts] is not among the sources.  Its
    four functions notify the user; here each call is recorded, in order, in
    the list of notifications.  [showLoading] returns the id of the
    notification it opened, which [dismissToast] takes. *)
Inductive Toast :=
| LoadingShown (toastId : nat) (msg : string)
| ErrorShown (msg : string)
| SuccessShown (msg : string)
| Dismissed (toastId : nat).

(** What one [reader.read()] delivers before the end of the stream: a chunk,
    given as the text [decoder.decode(value, {stream: true})] makes of it, or
    a failure of the transport. *)
Inductive ReadResult :=
| Chunk (text : string)
| ReadFails (reason : string).

(** The answer of [fetch]: its status, and the results of the successive
    reads of its body up to the end of the stream ([None] when the response
    has no body to read). *)
Record Response := mkResponse {
  status : Z;
  body : option (list ReadResult)
}.

(** [response.ok]. *)
Definition ok (r : Response) : bool := (200 <=? status r)%Z && (status r <=? 299)%Z.

Inductive FetchResult :=
| Responds (r : Response)
| Rejects (reason : string).

(** The readings of the clock and of the random generator, by the number of
    readings taken before. *)
Record Oracle := mkOracle {
  Date_now : nat → Z;
  Math_random : nat → string
}.

(** Everything [handleSendMessage] reads and writes: the provider, the
    component's flag, the notifications, the console, its local variable
    [accumulatedContent], and how many readings of the oracle were taken. *)
Record World := mkWorld {
  provider : Provider;
  isSendingMessage : bool;
  toasts : list Toast;
  consoleLog : list LogEntry;
  accumulatedContent : string;
  ticks : nat
}.

(** *** A state and exception monad for the body of an [async] function *)

Inductive Result (A : Type) :=
| Returns (a : A)
| Throws (message : string).
Arguments Returns {A} a.
Arguments Throws {A} message.

Definition M (A : Type) : Type := World → Result A * World.

Definition ret {A} (a : A) : M A := fun w => (Returns a, w).

Definition throw {A} (message : string) : M A := fun w => (Throws message, w).

Definition bind {A B} (m : M A) (k : A → M B) : M B :=
  fun w =>
    match m w with
    | (Returns a, w') => k a w'
    | (Throws message, w') => (Throws message, w')
    end.

Notation "x <- m ;; k" := (bind m (fun x => k))
  (at level 100, m at next level, right associativity).
Notation "m ;; k" := (bind m (fun _ => k))
  (at level 100, right associativity).

(** [try { m } catch (e) { handler e }]. *)
Definition try_catch {A} (m : M A) (handler : string → M A) : M A :=
  fun w =>
    match m w with
    | (Returns a, w') => (Returns a, w')
    | (Throws message, w') => handler message w'
    end.

(** [try { m } finally { final }]. *)
Definition try_finally {A} (m : M A) (final : M unit) : M A :=
  fun w =>
    let '(r, w') := m w in
    match final w' with
    | (Returns _, w'') => (r, w'')
    | (Throws message, w'') => (Throws message, w'')
    end.

(** *** The effects *)

Definition modifyProvider (f : Provider → Provider) : M unit :=
  fun w =>
    (Returns tt,
     {| provider := f (provider w); isSendingMessage := isSendingMessage w;
        toasts := toasts w; consoleLog := consoleLog w;
        accumulatedContent := accumulatedContent w; ticks := ticks w |}).

Definition setIsSendingMessage (b : bool) : M unit :=
  fun w =>
    (Returns tt,
     {| provider := provider w; isSendingMessage := b;
        toasts := toasts w; consoleLog := consoleLog w;
        accumulatedContent := accumulatedContent w; ticks := ticks w |}).

Definition notify (t : Toast) : M unit :=
  fun w =>
    (Returns tt,
     {| provider := provider w; isSendingMessage := isSendingMessage w;
        toasts := toasts w ++ [t]; consoleLog := consoleLog w;
        accumulatedContent := accumulatedContent w; ticks := ticks w |}).

Definition showLoading (msg : string) : M nat :=
  fun w => bind (notify (LoadingShown (length (toasts w)) msg))
             (fun _ => ret (length (toasts w))) w.

Definition showError (msg : string) : M unit := notify (ErrorShown msg).

Definition dismissToast (toastId : nat) : M unit := notify (Dismissed toastId).

Definition consoleWrite (e : LogEntry) : M unit :=
  fun w =>
    (Returns tt,
     {| provider := provider w; isSendingMessage := isSendingMessage w;
        toasts := toasts w; consoleLog := consoleLog w ++ [e];
        accumulatedContent := accumulatedContent w; ticks := ticks w |}).

Definition setAccumulatedContent (s : string) : M unit :=
  fun w =>
    (Returns tt,
     {| provider := provider w; isSendingMessage := isSendingMessage w;
        toasts := toasts w; consoleLog := consoleLog w;
        accumulatedContent := s; ticks := ticks w |}).

Definition getAccumulatedContent : M string :=
  fun w => (Returns (accumulatedContent w), w).

(** The number of readings taken so far; taking one more. *)
Definition tick : M nat :=
  fun w =>
    (Returns (ticks w),
     {| provider := provider w; isSendingMessage := isSendingMessage w;
        toasts := toasts w; consoleLog := consoleLog w;
        accumulatedContent := accumulatedContent w; ticks := S (ticks w) |}).

(** [s.split(sep)] for a one-character separator. *)
Fixpoint split (sep : ascii) (s : string) : list string :=
  match s with
  | EmptyString => [EmptyString]
  | String c r =>
      if Ascii.eqb c sep then EmptyString :: split sep r
      else
        match split sep r with
        | first :: others => String c first :: others
        | [] => [String c EmptyString]
        end
  end.

(** The fixed texts of [handleSendMessage]. *)
Definition APOLOGY : string := "Sorry, I encountered an error. Please try again.".
Definition ERROR_TOAST : string := "Failed to get a response from Hikari. Please try again.".
Definition LOADING_TOAST : string := "Hikari is thinking...".

Section Pipeline.

Variable oracle : Oracle.

Definition dateNow : M Z := n <- tick ;; ret (Date_now oracle n).

Definition mathRandom : M string := n <- tick ;; ret (Math_random oracle n).

(** The call [addMessageToCurrentChat(text, isUser)] of the component. *)
Definition callAddMessage (text : string) (isUser : bool) : M unit :=
  idNow <- dateNow ;;
  rnd <- mathRandom ;;
  ts <- dateNow ;;
  upd <- dateNow ;;
  modifyProvider (addMessageToCurrentChat text isUser (generateMessageId idNow rnd) ts upd).

(** The call [updateLastAIMessage(newText)] of the component. *)
Definition callUpdateLast (newText : string) : M unit :=
  ts <- dateNow ;;
  upd <- dateNow ;;
  modifyProvider (updateLastAIMessage newText ts upd).

(** [JSON.parse(jsonStr)] and [data.key], which throw. *)
Definition parseJSON (jsonStr : string) : M json :=
  match JSON_parse jsonStr with
  | Some data => ret data
  | None => throw "SyntaxError"
  end.

Definition getMember (key : string) (data : json) : M (option json) :=
  match member key data with
  | Some x => ret x
  | None => throw "TypeError"
  end.

(** [String(x)] for a value [x] that passed [if (x)]. *)
Definition stringOf (x : option json) : string :=
  match x with
  | Some v => toString v
  | None => "undefined"
  end.

(** The body of [for (const line of lines)]; [true] is its [break]. *)
Definition processLine (line : string) : M bool :=
  if startsWith "data: " line then
    try_catch
      (let jsonStr := slice_from 6 line in
       data <- parseJSON jsonStr ;;
       error <- getMember "error" data ;;
       (if truthy error then throw (stringOf error) else ret tt) ;;
       content <- getMember "content" data ;;
       (if truthy content then
          acc <- getAccumulatedContent ;;
          setAccumulatedContent (acc +:+ stringOf content) ;;
          acc' <- getAccumulatedContent ;;
          callUpdateLast acc'
        else ret tt) ;;
       done <- getMember "done" data ;;
       ret (truthy done))
      (fun parseError =>
         consoleWrite (ConsoleWarn ("Failed to parse chunk: " +:+ line)) ;;
         ret false)
  else ret false.

Fixpoint forLines (lines : list string) : M unit :=
  match lines with
  | [] => ret tt
  | line :: rest =>
      stop <- processLine line ;;
      if stop then ret tt else forLines rest
  end.

(** The [while (true)] loop over the reads, up to the end of the stream. *)
Fixpoint readLoop (reads : list ReadResult) : M unit :=
  match reads with
  | [] => ret tt
  | Chunk chunk :: rest =>
      forLines (split NEWLINE chunk) ;;
      readLoop rest
  | ReadFails reason :: _ => throw reason
  end.

(** The body of the outer [try]. *)
Definition tryBody (answer : FetchResult) : M unit :=
  callAddMessage EmptyString false ;;
  response <- match answer with
              | Responds r => ret r
              | Rejects reason => throw reason
              end ;;
  (if negb (ok response)
   then throw ("HTTP error! status: " +:+ string_of_Z (status response))
   else ret tt) ;;
  setAccumulatedContent EmptyString ;;
  reads <- match body response with
           | Some reads => ret reads
           | None => throw "Response body is not readable"
           end ;;
  readLoop reads ;;
  acc <- getAccumulatedContent ;;
  if String.eqb acc EmptyString
  then throw "No response received from server"
  else ret tt.

(** The outer [catch]. *)
Definition onError (error : string) : M unit :=
  consoleWrite (ConsoleError ("Error sending message: " +:+ error)) ;;
  showError ERROR_TOAST ;;
  callUpdateLast APOLOGY.

(** [handleSendMessage(text)], with the [answer] that [fetch] gives. *)
Definition handleSendMessage (answer : FetchResult) (text : string) : M unit :=
  callAddMessage text true ;;
  setIsSendingMessage true ;;
  loadingToastId <- showLoading LOADING_TOAST ;;
  try_finally
    (try_catch (tryBody answer) onError)
    (dismissToast loadingToastId ;;
     setIsSendingMessage false).

End Pipeline.

(** ** Data of the examples *)

(** The wire lines [data: {"content":"s"}], [data: {"done":true}] and
    [data: {"error":"s"}] (for a text [s] that needs no escape), and a line
    with its newline. *)
Definition contentLine (s : string) : string :=
  "data: {" +:+ quoted "content" +:+ ":" +:+ quoted s +:+ "}".

Definition doneLine : string := "data: {" +:+ quoted "done" +:+ ":true}".

Definition errorLine (s : string) : string :=
  "data: {" +:+ quoted "error" +:+ ":" +:+ quoted s +:+ "}".

Definition malformedLine : string := "data: {not valid json}".

Definition withNewline (line : string) : string := line +:+ String NEWLINE EmptyString.

Definition exampleOracle : Oracle :=
  {| Date_now := fun n => (1700000000000 + Z.of_nat n)%Z;
     Math_random := fun _ => "k3j9x2a" |}.

(** The component right after the mount effect on an empty store. *)
Definition freshWorld : World :=
  {| provider := freshProvider; isSendingMessage := false; toasts := [];
     consoleLog := []; accumulatedContent := EmptyString; ticks := 0 |}.

(** A response with status 200 whose body delivers the given chunks. *)
Definition streamOf (chunks : list string) : FetchResult :=
  Responds {| status := 200; body := Some (map Chunk chunks) |}.

(** The three lines of the accumulation scenario, each with its newline. *)
Definition helloLines : list string :=
  [withNewline (contentLine "Hel"); withNewline (contentLine "lo"); withNewline doneLine].

(** The three lines of the malformed-record scenario; the last one ends with a
    newline or not. *)
Definition tolerantLines (lastNewline : bool) : list string :=
  [withNewline malformedLine; withNewline (contentLine "ok");
   if lastNewline then withNewline doneLine else doneLine].

(** The lines delivered by two reads, the first [j] lines by the first one;
    and by three reads, the first [j] lines by the first and the next [k] by
    the second. *)
Definition inTwoReads (j : nat) (lines : list string) : list string :=
  [String.concat EmptyString (take j lines); String.concat EmptyString (drop j lines)].

Definition inThreeReads (j k : nat) (lines : list string) : list string :=
  [String.concat EmptyString (take j lines);
   String.concat EmptyString (take k (drop j lines));
   String.concat EmptyString (drop k (drop j lines))].

(** A stream that delivers content and then reports an error. *)
Definition contentThenError : FetchResult :=
  streamOf [withNewline (contentLine "Hi"); withNewline (errorLine "boom")].

(** A history with one session of two messages, one of them with characters
    that JSON escapes, and a browser with an empty store. *)
Definition exampleHistory : list ChatSession :=
  [{| s_id := "chat-1700000000000";
      s_title := "say " +:+ quoted "hi";
      s_messages :=
        [{| m_id := "msg-1700000000001-k3j9x2a";
            m_text := "say " +:+ quoted "hi" +:+ String BACKSLASH (String NEWLINE "now");
            m_isUser := true; m_timestamp := 1700000000001 |};
         {| m_id := "msg-1700000000002-p0q8w7e"; m_text := "hi";
            m_isUser := false; m_timestamp := 1700000000950 |}];
      s_createdAt := 1700000000000;
      s_updatedAt := 1700000000950 |}].

Definition exampleBrowser : Browser :=
  {| hasWindow := true; localStorage := ∅; quota := 4096; console := [] |}.

(** ** What a stream delivers

    The functions of this part are not in the source: they say, without the
    state, what the loops of [handleSendMessage] make of a line and of a
    stream.  The theorems below prove that the loops do just that. *)

(** What [processLine] does with a line. *)
Inductive Action :=
| Ignore                                  (* not a [data: ] line *)
| Warn                                    (* caught by the inner [catch] *)
| Deliver (text : string) (stop : bool)   (* appends [text], then [break]s if [stop] *)
| Silent (stop : bool).                   (* no content; [break]s if [stop] *)

Definition lineAction (line : string) : Action :=
  if startsWith "data: " line then
    match JSON_parse (slice_from 6 line) with
    | None => Warn
    | Some data =>
        match member "error" data, member "content" data, member "done" data with
        | Some error, Some content, Some done =>
            if truthy error then Warn
            else if truthy content then Deliver (stringOf content) (truthy done)
            else Silent (truthy done)
        | _, _, _ => Warn
        end
    end
  else Ignore.

(** The texts that the lines of one chunk append to the accumulator. *)
Fixpoint deliveredByLines (lines : list string) : list string :=
  match lines with
  | [] => []
  | line :: rest =>
      match lineAction line with
      | Deliver text stop => text :: (if stop then [] else deliveredByLines rest)
      | Silent stop => if stop then [] else deliveredByLines rest
      | Ignore | Warn => deliveredByLines rest
      end
  end.

(** The texts that the reads of a stream append, up to its end or to the
    first read that fails. *)
Fixpoint delivered (reads : list ReadResult) : list string :=
  match reads with
  | [] => []
  | Chunk chunk :: rest => deliveredByLines (split NEWLINE chunk) ++ delivered rest
  | ReadFails _ :: _ => []
  end.

Fixpoint concatenation (texts : list string) : string :=
  match texts with
  | [] => EmptyString
  | t :: rest => t +:+ concatenation rest
  end.

(** No read of the stream fails. *)
Definition endsWell (reads : list ReadResult) : bool :=
  forallb (fun r => match r with Chunk _ => true | ReadFails _ => false end) reads.

(** The text of the assistant's reply when the send succeeds; [None] when it
    takes the failure path. *)
Definition reply (answer : FetchResult) : option string :=
  match answer with
  | Rejects _ => None
  | Responds r =>
      if ok r then
        match body r with
        | None => None
        | Some reads =>
            if endsWell reads then
              let acc := concatenation (delivered reads) in
              if String.eqb acc EmptyString then None else Some acc
            else None
        end
      else None
  end.

(** There is a current session to send to: the current id is set, is not the
    empty string, and some session has it. *)
Definition sendable (st : Provider) : bool :=
  match currentChatSessionId st with
  | Some cur => negb (String.eqb cur EmptyString) && knownId cur st
  | None => false
  end.

(** The current session shows [msgs] followed by the assistant message [m]. *)
Definition awaiting (cur : string) (msgs : list ChatMessage) (m : ChatMessage)
    (st : Provider) : Prop :=
  currentChatSessionId st = Some cur ∧ cur ≠ EmptyString ∧
  currentChatMessages st = msgs ++ [m] ∧ m_isUser m = false.

(** What the loop body does for each kind of line. *)
Definition deliver (oracle : Oracle) (text : string) : M unit :=
  acc <- getAccumulatedContent ;;
  setAccumulatedContent (acc +:+ text) ;;
  acc' <- getAccumulatedContent ;;
  callUpdateLast oracle acc'.

Definition runAction (oracle : Oracle) (line : string) (a : Action) : M bool :=
  match a with
  | Ignore => ret false
  | Warn => consoleWrite (ConsoleWarn ("Failed to parse chunk: " +:+ line)) ;; ret false
  | Deliver text stop => deliver oracle text ;; ret stop
  | Silent stop => ret stop
  end.

(** The state of a send while the stream is read: the current session shows
    [msgs] and then the placeholder, which has the id [pid] and the text
    [text]; the notifications are [T] and the flag is [flag]. *)
Definition streaming (cur : string) (msgs : list ChatMessage) (pid : string)
    (T : list Toast) (flag : bool) (text : string) (w : World) : Prop :=
  ∃ m, awaiting cur msgs m (provider w) ∧ m_id m = pid ∧ m_text m = text ∧
       toasts w = T ∧ isSendingMessage w = flag.

(** ** Further data of the examples *)

(** The fresh provider after a user message and the assistant's placeholder. *)
Definition twoMessages : Provider :=
  addMessageToCurrentChat EmptyString false "msg-3-bbbbbbb" 3 4
    (addMessageToCurrentChat "hi" true "msg-1-aaaaaaa" 1 2 freshProvider).

(** ** The provider and the store together *)

(** The mount effect with the store it reads: [loadChatHistory()], then
    [initialize] on what it returns.  [None] when the stored value is not the
    array of sessions that the code takes it for. *)
Definition mountEffect (now : Z) (b : Browser) (st : Provider) : option (Provider * Browser) :=
  let '(loaded, b') := loadChatHistory b in
  match loaded with
  | Sessions history => Some (initialize history now st, b')
  | Untyped _ => None
  end.

(** A browser whose store holds a text that is not JSON. *)
Definition corruptBrowser : Browser :=
  {| hasWindow := true;
     localStorage := <[CHAT_HISTORY_KEY := "[{not json"]> ∅;
     quota := 4096; console := [] |}.

(** A browser that has no room for the example history. *)
Definition fullBrowser : Browser :=
  {| hasWindow := true;
     localStorage := <[CHAT_HISTORY_KEY := "[]"]> ∅;
     quota := 16; console := [] |}.

(** A response with status 200 whose body gives the results [reads]. *)
Definition readsOf (reads : list ReadResult) : FetchResult :=
  Responds {| status := 200; body := Some reads |}.

(** No line of the chunks starts with [data: ]. *)
Definition noDataLines (chunks : list string) : bool :=
  forallb (fun chunk =>
             forallb (fun line => negb (startsWith "data: " line)) (split NEWLINE chunk))
    chunks.

(** The component with the provider in the given state, nothing being sent. *)
Definition worldOf (st : Provider) : World :=
  {| provider := st; isSendingMessage := false; toasts := [];
     consoleLog := []; accumulatedContent := EmptyString; ticks := 0 |}.

(** Two chats: a new, empty one, which is current, before the one with the
    two messages. *)
Definition twoChats : Provider := startNewChat 5 twoMessages.

(** A stream of two reads whose first one ends with a [done] record. *)
Definition firstReads : list ReadResult :=
  [Chunk (withNewline (contentLine "Hel") +:+ withNewline doneLine)].
Definition laterReads : list ReadResult :=
  [Chunk (withNewline (contentLine "lo"))].

(** Chunks of an event stream without any [data: ] line. *)
Definition keepAlives : list string :=
  [withNewline ": keep-alive" +:+ withNewline EmptyString; withNewline "event: ping"].

(** ** The user interface ([pages/Index.tsx], [ChatInput], [Sidebar])

    [s.trim()]: the white space and the line terminators of JavaScript among
    the code units 0..255 are tab, line feed, vertical tab, form feed,
    carriage return, space and no-break space. *)
Definition isSpace (c : ascii) : bool :=
  let n := N_of_ascii c in
  ((9 <=? n)%N && (n <=? 13)%N) || (n =? 32)%N || (n =? 160)%N.

Fixpoint trimStart (s : string) : string :=
  match s with
  | EmptyString => EmptyString
  | String c r => if isSpace c then trimStart r else s
  end.

Fixpoint trimEnd (s : string) : string :=
  match s with
  | EmptyString => EmptyString
  | String c r =>
      let r' := trimEnd r in
      if isSpace c && String.eqb r' EmptyString then EmptyString else String c r'
  end.

Definition trim (s : string) : string := trimEnd (trimStart s).

(** The state of the page: the component with its provider, the text of the
    input field ([ChatInput]) and whether the side bar is open ([Index]). *)
Record App := mkApp {
  world : World;
  input : string;
  isSidebarOpen : bool
}.

Definition setWorld (w : World) (app : App) : App :=
  {| world := w; input := input app; isSidebarOpen := isSidebarOpen app |}.

Definition setInput (s : string) (app : App) : App :=
  {| world := world app; input := s; isSidebarOpen := isSidebarOpen app |}.

Definition setIsSidebarOpen (open : bool) (app : App) : App :=
  {| world := world app; input := input app; isSidebarOpen := open |}.

(** [startNewChat()] of the provider, with the success notification. *)
Definition callStartNewChat (now : Z) (w : World) : World :=
  {| provider := startNewChat now (provider w); isSendingMessage := isSendingMessage w;
     toasts := toasts w ++ [SuccessShown "New chat started!"]; consoleLog := consoleLog w;
     accumulatedContent := accumulatedContent w; ticks := ticks w |}.

Definition callSelectChatSession (sessionId : string) (w : World) : World :=
  {| provider := selectChatSession sessionId (provider w);
     isSendingMessage := isSendingMessage w; toasts := toasts w;
     consoleLog := consoleLog w; accumulatedContent := accumulatedContent w;
     ticks := ticks w |}.

(** [onClose?.()] of [SidebarContent]: on a mobile screen the side bar is a
    sheet and [onClose] closes it; otherwise there is no [onClose]. *)
Definition onClose (isMobile : bool) (app : App) : App :=
  if isMobile then setIsSidebarOpen false app else app.

(** [handleNewChat] and [handleSelectChat] of the side bar. *)
Definition handleNewChat (isMobile : bool) (now : Z) (app : App) : App :=
  onClose isMobile (setWorld (callStartNewChat now (world app)) app).

Definition handleSelectChat (isMobile : bool) (sessionId : string) (app : App) : App :=
  onClose isMobile (setWorld (callSelectChatSession sessionId (world app)) app).

(** [toggleSidebar] of the page. *)
Definition toggleSidebar (app : App) : App :=
  setIsSidebarOpen (negb (isSidebarOpen app)) app.

(** [handleSubmit] of the input form; [isLoading] there is the sending flag
    of the component, and [onSendMessage] is [handleSendMessage].  The send is
    run to its end here: no other event falls between its steps. *)
Definition handleSubmit (oracle : Oracle) (answer : FetchResult) (app : App) : App :=
  if negb (String.eqb (trim (input app)) EmptyString)
     && negb (isSendingMessage (world app))
  then setInput EmptyString
         (setWorld (snd (handleSendMessage oracle answer (input app) (world app))) app)
  else app.

(** What the user does: type in the input field, submit the form (with the
    answer that [fetch] will give), and click the button of the header, the
    New Chat button, or the button of the session at position [i] of the side
    bar. *)
Inductive UIEvent :=
| TypeInput (text : string)
| SubmitForm (answer : FetchResult)
| ClickToggle
| ClickNewChat (now : Z)
| ClickChat (i : nat).

(** The effect of an event.  While the history is loading the page shows a
    spinner only; the input field is disabled while a message is being sent;
    the buttons of the side bar are there when it is open, one per session. *)
Definition uiStep (isMobile : bool) (oracle : Oracle) (e : UIEvent) (app : App) : App :=
  if isLoading (provider (world app)) then app
  else
    match e with
    | TypeInput text =>
        if isSendingMessage (world app) then app else setInput text app
    | SubmitForm answer => handleSubmit oracle answer app
    | ClickToggle => toggleSidebar app
    | ClickNewChat now =>
        if isSidebarOpen app then handleNewChat isMobile now app else app
    | ClickChat i =>
        if isSidebarOpen app then
          match chatSessions (provider (world app)) !! i with
          | Some session => handleSelectChat isMobile (s_id session) app
          | None => app
          end
        else app
    end.

Definition runUI (isMobile : bool) (oracle : Oracle) (events : list UIEvent) (app : App) : App :=
  fold_left (fun app e => uiStep isMobile oracle e app) events app.

(** The page right after the mount effect on the given history. *)
Definition mountedApp (history : list ChatSession) (now : Z) : App :=
  {| world := worldOf (initialize history now initialProvider);
     input := EmptyString; isSidebarOpen := true |}.

(** The ids of the sessions are not empty strings. *)
Definition idsNonEmpty (sessions : list ChatSession) : bool :=
  forallb (fun session => negb (String.eqb (s_id session) EmptyString)) sessions.

(** ** Rendering a message ([components/MessageBubble.tsx]) *)

(** The fence of a code block: three backquotes. *)
Definition FENCE : string := "```".

(** [s.endsWith(p)]. *)
Definition endsWith (p s : string) : bool :=
  let n := String.length s in
  let m := String.length p in
  (m <=? n)%nat && String.eqb (String.substring (n - m) m s) p.

(** [s.substring(from, to)]: both indices are brought into [0, s.length], and
    exchanged when the first is the larger. *)
Definition jsSubstring (from to : Z) (s : string) : string :=
  let clamp (i : Z) := Z.to_nat (Z.min (Z.max i 0) (Z.of_nat (String.length s))) in
  let a := Nat.min (clamp from) (clamp to) in
  let b := Nat.max (clamp from) (clamp to) in
  String.substring a (b - a) s.

(** The position of the first fence in [s]. *)
Fixpoint indexOfFence (s : string) : option nat :=
  match s with
  | EmptyString => None
  | String _ r =>
      if startsWith FENCE s then Some 0
      else match indexOfFence r with Some i => Some (S i) | None => None end
  end.

(** A match of the pattern [```[\s\S]*?```] at the head of [s]: an opening
    fence, as few characters as possible, a closing fence.  The result is the
    text matched and what follows it. *)
Definition matchFence (s : string) : option (string * string) :=
  if startsWith FENCE s then
    match indexOfFence (slice_from 3 s) with
    | Some i => Some (String.substring 0 (3 + i + 3) s, slice_from (3 + i + 3) s)
    | None => None
    end
  else None.

(** [text.split(/(```[\s\S]*?```)/g)]: the texts between the matches, and the
    matches themselves (the pattern is one capture group), in order.
    [pending] is the text since the last match, [s] what remains; [fuel]
    bounds the steps, one character at least being consumed by each. *)
Fixpoint splitFencesFrom (fuel : nat) (pending s : string) : list string :=
  match fuel with
  | O => [pending +:+ s]
  | S fuel =>
      match matchFence s with
      | Some (block, rest) => pending :: block :: splitFencesFrom fuel EmptyString rest
      | None =>
          match s with
          | EmptyString => [pending]
          | String c r => splitFencesFrom fuel (pending +:+ String c EmptyString) r
          end
      end
  end.

Definition splitFences (text : string) : list string :=
  splitFencesFrom (S (String.length text)) EmptyString text.

(** [\w]. *)
Definition isWordChar (c : ascii) : bool :=
  let n := N_of_ascii c in
  ((48 <=? n)%N && (n <=? 57)%N) || ((65 <=? n)%N && (n <=? 90)%N)
  || ((97 <=? n)%N && (n <=? 122)%N) || (n =? 95)%N.

(** The longest run of word characters at the head of [s], and the rest. *)
Fixpoint scanWord (s : string) : string * string :=
  match s with
  | EmptyString => (EmptyString, EmptyString)
  | String c r =>
      if isWordChar c then let '(w, rest) := scanWord r in (String c w, rest)
      else (EmptyString, s)
  end.

(** [codeContent.match(/^(\w+)\n/)]: the word matched, and the length of the
    whole match. *)
Definition languageMatch (codeContent : string) : option (string * nat) :=
  match scanWord codeContent with
  | (String c w, String nl _) =>
      if Ascii.eqb nl NEWLINE then Some (String c w, S (String.length (String c w)))
      else None
  | _ => None
  end.

(** What a part of the message is rendered as: a highlighted code block with
    its language, or a paragraph. *)
Inductive Part :=
| CodeBlock (language code : string)
| Paragraph (text : string).

(** The callback of [parts.map]. *)
Definition renderPart (part : string) : Part :=
  if startsWith FENCE part && endsWith FENCE part then
    let codeContent :=
      trim (jsSubstring 3 (Z.of_nat (String.length part) - 3) part) in
    match languageMatch codeContent with
    | Some (language, matched) => CodeBlock language (slice_from matched codeContent)
    | None => CodeBlock "javascript" codeContent
    end
  else Paragraph part.

Definition renderMessageContent (text : string) : list Part :=
  map renderPart (splitFences text).

(** No backquote in [s]. *)
Fixpoint noBackquote (s : string) : bool :=
  match s with
  | EmptyString => true
  | String c r => negb (Ascii.eqb c "`") && noBackquote r
  end.

(** Every character of [s] is a word character. *)
Fixpoint allWordChars (s : string) : bool :=
  match s with
  | EmptyString => true
  | String c r => isWordChar c && allWordChars r
  end.

(** A message with one code block. *)
Definition fencedMessage (before language code after : string) : string :=
  before +:+ FENCE +:+ language +:+ String NEWLINE code +:+ FENCE +:+ after.

(** * The definitions at work *)

Example titleOf_short : titleOf "fix my loop" = "fix my loop".
Proof. reflexivity. Qed.

Example titleOf_long :
  titleOf "write a hello world program in Rust" = "write a hello world program in...".
Proof. reflexivity. Qed.

Example titleOf_thirty :
  titleOf "123456789012345678901234567890" = "123456789012345678901234567890".
Proof. reflexivity. Qed.

Example split_chunk :
  split NEWLINE (withNewline "a" +:+ withNewline "b") = ["a"; "b"; EmptyString].
Proof. reflexivity. Qed.

Example split_empty : split NEWLINE EmptyString = [EmptyString].
Proof. reflexivity. Qed.

Example parse_content_record :
  JSON_parse (slice_from 6 (contentLine "Hel")) = Some (JObj [("content", JStr "Hel")]).
Proof. vm_compute. reflexivity. Qed.

Example parse_malformed_record : JSON_parse (slice_from 6 malformedLine) = None.
Proof. vm_compute. reflexivity. Qed.

Example parse_with_spaces :
  JSON_parse " [1, -20 , 0, {}, [], null, false ] "
    = Some (JArr [JNum 1; JNum (-20); JNum 0; JObj []; JArr []; JNull; JBool false]).
Proof. vm_compute. reflexivity. Qed.

Example parse_leading_zero : JSON_parse "[01]" = None.
Proof. vm_compute. reflexivity. Qed.

Example stringify_message :
  JSON_stringify
    (message_to_json {| m_id := "msg-1-abcdefg"; m_text := String NEWLINE "x";
                        m_isUser := true; m_timestamp := 12 |})
  = "{" +:+ quoted "id" +:+ ":" +:+ quoted "msg-1-abcdefg" +:+ ","
        +:+ quoted "text" +:+ ":" +:+ quoted (String BACKSLASH "nx") +:+ ","
        +:+ quoted "isUser" +:+ ":true,"
        +:+ quoted "timestamp" +:+ ":12}".
Proof. vm_compute. reflexivity. Qed.

Example actions_of_lines :
  map lineAction [contentLine "Hel"; doneLine; errorLine "boom"; malformedLine;
                  EmptyString; "event: ping"]
  = [Deliver "Hel" false; Silent true; Warn; Warn; Ignore; Ignore].
Proof. vm_compute. reflexivity. Qed.

Example load_from_empty_store : fst (loadChatHistory exampleBrowser) = Sessions [].
Proof. reflexivity. Qed.

Example initialize_on_empty_store :
  chatSessions freshProvider = [createNewChatSession 0] ∧
  currentChatSessionId freshProvider = Some "chat-0" ∧
  isLoading freshProvider = false.
Proof. vm_compute. repeat split. Qed.

(** * Properties of the history manager *)

Section Manager.

Implicit Types (st : Provider) (session : ChatSession) (cur : string).

Lemma fmap_id_on {A} (f : A → A) (l : list A) :
  (∀ x, x ∈ l → f x = x) → f <$> l = l.
Proof.
  induction l as [|x l IH]; intros Hf; csimpl; [done|].
  rewrite Hf by apply list_elem_of_here. rewrite IH; [done|].
  intros y Hy. apply Hf. by apply list_elem_of_further.
Qed.

Lemma setChatSessions_same st : setChatSessions (chatSessions st) st = st.
Proof. by destruct st. Qed.

Lemma appendTo_id cur m text isUser upd session :
  s_id (appendTo cur m text isUser upd session) = s_id session.
Proof. unfold appendTo. by destruct (String.eqb _ _). Qed.

Lemma patchLast_id cur newText ts upd session :
  s_id (patchLast cur newText ts upd session) = s_id session.
Proof.
  unfold patchLast. destruct (String.eqb _ _); [|done].
  destruct (if (0 <=? _)%Z then _ else _) as [m|]; [|done].
  by destruct (negb _).
Qed.

Lemma patchLast_noop cur newText ts upd session :
  endsWithUserOrEmpty session = true →
  patchLast cur newText ts upd session = session.
Proof.
  unfold endsWithUserOrEmpty, patchLast. intros Hend.
  destruct (String.eqb _ _); [|done].
  destruct (s_messages session) as [|m0 l _] using rev_ind; [done|].
  rewrite last_snoc in Hend. rewrite length_app. simpl.
  replace (Z.to_nat (Z.of_nat (length l + 1) - 1)) with (length l + 0) by lia.
  destruct (0 <=? _)%Z; [|done].
  rewrite lookup_app_r by lia.
  replace (length l + 0 - length l) with 0 by lia. simpl.
  by rewrite Hend.
Qed.


Lemma currentEndsWithUserOrEmpty_spec st cur :
  currentChatSessionId st = Some cur →
  currentEndsWithUserOrEmpty st = true →
  ∀ session, session ∈ chatSessions st → s_id session = cur →
    endsWithUserOrEmpty session = true.
Proof.
  unfold currentEndsWithUserOrEmpty, isCurrent. intros -> Hall session Hin Hid.
  rewrite forallb_forall in Hall.
  specialize (Hall session (proj1 (list_elem_of_In _ _) Hin)).
  rewrite Hid, String.eqb_refl in Hall. done.
Qed.

(** C4.  In a state where the session the current id designates has no
    message, or has a user message as its last one,
    [updateLastAIMessage(newText)] changes nothing: the sessions, all their
    fields and the current id are what they were, whatever [newText] is. *)
Theorem updateLastAIMessage_noop st newText ts upd :
  currentEndsWithUserOrEmpty st = true →
  updateLastAIMessage newText ts upd st = st.
Proof.
  intros Hend. unfold updateLastAIMessage.
  destruct (currentChatSessionId st) as [cur|] eqn:Hcur; [|done].
  destruct (String.eqb cur ""); [done|].
  rewrite fmap_id_on; [apply setChatSessions_same|].
  intros session Hin. unfold patchLast at 1.
  destruct (String.eqb (s_id session) cur) eqn:Hid; [|done].
  apply String.eqb_eq in Hid.
  pose proof (currentEndsWithUserOrEmpty_spec st cur Hcur Hend session Hin Hid) as Hs.
  pose proof (patchLast_noop cur newText ts upd session Hs) as Hp.
  unfold patchLast in Hp. apply String.eqb_eq in Hid. by rewrite Hid in Hp.
Qed.

Lemma knownId_false st cur :
  knownId cur st = false →
  ∀ session, session ∈ chatSessions st → String.eqb (s_id session) cur = false.
Proof.
  unfold knownId. intros Hno session Hin.
  destruct (String.eqb (s_id session) cur) eqn:Hid; [|done].
  assert (existsb (λ s, String.eqb (s_id s) cur) (chatSessions st) = true) as Hex.
  { apply existsb_exists. exists session. split; [by apply list_elem_of_In|done]. }
  congruence.
Qed.

(** C10.  When the current id is set but no session has it,
    [addMessageToCurrentChat] and [updateLastAIMessage] return the state they
    were given: the message is dropped, no session is created, and (the
    operations being total functions) nothing is raised. *)
Theorem dangling_current_drops_updates st cur :
  currentChatSessionId st = Some cur →
  knownId cur st = false →
  ∀ text isUser mid ts upd newText ts' upd',
    addMessageToCurrentChat text isUser mid ts upd st = st ∧
    updateLastAIMessage newText ts' upd' st = st.
Proof.
  intros Hcur Hno text isUser mid ts upd newText ts' upd'.
  pose proof (knownId_false st cur Hno) as Hne.
  unfold addMessageToCurrentChat, updateLastAIMessage. rewrite Hcur.
  destruct (String.eqb cur ""); [done|].
  split.
  - rewrite fmap_id_on; [apply setChatSessions_same|].
    intros session Hin. unfold appendTo. by rewrite (Hne session Hin).
  - rewrite fmap_id_on; [apply setChatSessions_same|].
    intros session Hin. unfold patchLast. by rewrite (Hne session Hin).
Qed.


(** *** The title of a session under [addMessageToCurrentChat] *)

Lemma addCall_lookup st cur i session c :
  currentChatSessionId st = Some cur → cur ≠ "" →
  chatSessions st !! i = Some session → s_id session = cur →
  currentChatSessionId (addCall c st) = Some cur ∧
  chatSessions (addCall c st) !! i =
    Some {| s_id := s_id session;
            s_title := if (length (s_messages session) =? 0)%nat && a_isUser c
                       then titleOf (a_text c) else s_title session;
            s_messages := s_messages session ++
              [{| m_id := a_mid c; m_text := a_text c;
                  m_isUser := a_isUser c; m_timestamp := a_ts c |}];
            s_createdAt := s_createdAt session;
            s_updatedAt := a_upd c |}.
Proof.
  intros Hcur Hne Hi Hid. unfold addCall, addMessageToCurrentChat.
  rewrite Hcur. apply String.eqb_neq in Hne. rewrite Hne. simpl.
  split; [done|].
  rewrite list_lookup_fmap, Hi. simpl. unfold appendTo.
  apply String.eqb_eq in Hid. by rewrite Hid.
Qed.

Lemma addAll_title_stable calls : ∀ st cur i session,
  currentChatSessionId st = Some cur → cur ≠ "" →
  chatSessions st !! i = Some session → s_id session = cur →
  s_messages session ≠ [] →
  ∃ session', chatSessions (addAll calls st) !! i = Some session' ∧
              s_title session' = s_title session.
Proof.
  induction calls as [|c calls IH]; intros st cur i session Hcur Hne Hi Hid Hmsgs.
  - exists session. done.
  - destruct (addCall_lookup st cur i session c Hcur Hne Hi Hid) as [Hcur' Hi'].
    simpl. edestruct (IH (addCall c st) cur i) as (session' & Hl & Ht); eauto.
    + simpl. by destruct (s_messages session).
    + exists session'. split; [done|]. rewrite Ht. simpl.
      destruct (s_messages session); [done|]. done.
Qed.

(** C2, as the code has it.  On a session without messages, the FIRST call of
    [addMessageToCurrentChat] decides the title for good: when it is a user
    message the title becomes the first 30 characters of its text, followed
    by ["..."] iff the text is longer than 30; when it is an assistant message
    the title stays what it was.  No later call changes the title, so a user
    message that comes after an assistant message does not set it. *)
Theorem title_decided_by_first_call st cur i session c calls :
  currentChatSessionId st = Some cur → cur ≠ "" →
  chatSessions st !! i = Some session → s_id session = cur →
  s_messages session = [] →
  ∃ session', chatSessions (addAll (c :: calls) st) !! i = Some session' ∧
    s_title session' =
      if a_isUser c
      then substring_to 30 (a_text c) +:+
           (if (30 <? String.length (a_text c))%nat then "..." else "")
      else s_title session.
Proof.
  intros Hcur Hne Hi Hid Hmsgs.
  destruct (addCall_lookup st cur i session c Hcur Hne Hi Hid) as [Hcur' Hi'].
  simpl. edestruct (addAll_title_stable calls (addCall c st) cur i) as (session' & Hl & Ht); eauto.
  - simpl. by destruct (s_messages session).
  - exists session'. split; [done|]. rewrite Ht. simpl. rewrite Hmsgs. simpl.
    by destruct (a_isUser c).
Qed.

(** *** The current-session reference *)

Lemma existsb_fmap_id (f : ChatSession → ChatSession) sessionId l :
  (∀ session, s_id (f session) = s_id session) →
  existsb (λ session, String.eqb (s_id session) sessionId) (f <$> l) =
  existsb (λ session, String.eqb (s_id session) sessionId) l.
Proof.
  intros Hf. induction l as [|x l IH]; csimpl; [done|]. by rewrite Hf, IH.
Qed.

Lemma addMessage_knownId sessionId text isUser mid ts upd st :
  knownId sessionId (addMessageToCurrentChat text isUser mid ts upd st) = knownId sessionId st.
Proof.
  unfold addMessageToCurrentChat, knownId.
  destruct (currentChatSessionId st) as [cur|]; [|done].
  destruct (String.eqb cur ""); [done|]. simpl.
  apply existsb_fmap_id. intros. apply appendTo_id.
Qed.

Lemma updateLast_knownId sessionId newText ts upd st :
  knownId sessionId (updateLastAIMessage newText ts upd st) = knownId sessionId st.
Proof.
  unfold updateLastAIMessage, knownId.
  destruct (currentChatSessionId st) as [cur|]; [|done].
  destruct (String.eqb cur ""); [done|]. simpl.
  apply existsb_fmap_id. intros. apply patchLast_id.
Qed.

Lemma addMessage_current text isUser mid ts upd st :
  currentChatSessionId (addMessageToCurrentChat text isUser mid ts upd st) =
  currentChatSessionId st.
Proof.
  unfold addMessageToCurrentChat.
  destruct (currentChatSessionId st) as [cur|] eqn:Hcur; [|done].
  by destruct (String.eqb cur "").
Qed.

Lemma updateLast_current newText ts upd st :
  currentChatSessionId (updateLastAIMessage newText ts upd st) = currentChatSessionId st.
Proof.
  unfold updateLastAIMessage.
  destruct (currentChatSessionId st) as [cur|] eqn:Hcur; [|done].
  by destruct (String.eqb cur "").
Qed.

Lemma initialize_currentKnown history now st :
  currentKnown (initialize history now st) = true.
Proof.
  unfold currentKnown, knownId, initialize.
  destruct history as [|first rest]; simpl; by rewrite String.eqb_refl.
Qed.

Lemma step_currentKnown c st :
  currentKnown st = true → selectsKnown [c] st = true →
  currentKnown (step c st) = true.
Proof.
  intros Hinv Hsel. destruct c as [now|sessionId|text isUser mid ts upd|newText ts upd]; simpl.
  - unfold currentKnown, knownId. simpl. by rewrite String.eqb_refl.
  - simpl in Hsel. rewrite andb_true_r in Hsel. exact Hsel.
  - unfold currentKnown in *. rewrite addMessage_current.
    destruct (currentChatSessionId st); [|done]. by rewrite addMessage_knownId.
  - unfold currentKnown in *. rewrite updateLast_current.
    destruct (currentChatSessionId st); [|done]. by rewrite updateLast_knownId.
Qed.

Lemma run_currentKnown calls : ∀ st,
  currentKnown st = true → selectsKnown calls st = true →
  currentKnown (run calls st) = true.
Proof.
  induction calls as [|c calls IH]; intros st Hinv Hsel; [done|].
  simpl in Hsel. apply andb_true_iff in Hsel as [Hc Hrest].
  simpl. apply IH; [|done].
  apply step_currentKnown; [done|]. simpl. by rewrite Hc.
Qed.

(** C3, as the code has it.  After the mount effect, along every sequence of
    [startNewChat], [selectChatSession], [addMessageToCurrentChat] and
    [updateLastAIMessage] in which each [selectChatSession] is called with the
    id of a session that is in the list at that time, the current id is the id
    of some session of the list.  ([selectChatSession] stores the id it is
    given without looking at the list.) *)
Theorem current_never_dangling history now calls :
  selectsKnown calls (initialize history now initialProvider) = true →
  currentKnown (run calls (initialize history now initialProvider)) = true.
Proof.
  intros Hsel. apply run_currentKnown; [apply initialize_currentKnown|done].
Qed.

End Manager.


Lemma updateLastAIMessage_noop_witness :
  currentSession freshProvider = Some (createNewChatSession 0) ∧
  updateLastAIMessage "late text" 7 7 freshProvider = freshProvider.
Proof.
  split; [reflexivity|].
  apply (updateLastAIMessage_noop freshProvider "late text" 7 7). reflexivity.
Defined.

Lemma dangling_current_drops_updates_witness :
  addMessageToCurrentChat "hi" true "msg-1-abcdefg" 1 1
    (selectChatSession "chat-404" freshProvider) = selectChatSession "chat-404" freshProvider ∧
  updateLastAIMessage "text" 2 2
    (selectChatSession "chat-404" freshProvider) = selectChatSession "chat-404" freshProvider.
Proof.
  apply (dangling_current_drops_updates (selectChatSession "chat-404" freshProvider) "chat-404");
    reflexivity.
Defined.

Lemma title_decided_by_first_call_witness :
  ∃ session',
    chatSessions (addAll [mkAddCall "write a hello world program in Rust" true "msg-1-aaaaaaa" 1 1;
                          mkAddCall "" false "msg-2-bbbbbbb" 2 2] freshProvider) !! 0
      = Some session' ∧
    s_title session' = "write a hello world program in...".
Proof.
  apply (title_decided_by_first_call freshProvider "chat-0" 0 (createNewChatSession 0)
           (mkAddCall "write a hello world program in Rust" true "msg-1-aaaaaaa" 1 1)
           [mkAddCall "" false "msg-2-bbbbbbb" 2 2]); try reflexivity.
  discriminate.
Defined.

(** C2, as stated, fails: when an assistant message was appended to the empty
    session first, the first user message does not set the title. *)
Lemma title_by_first_user_message_fails :
  ¬ (∀ st cur i session pre c,
       currentChatSessionId st = Some cur → cur ≠ "" →
       chatSessions st !! i = Some session → s_id session = cur →
       s_messages session = [] →
       forallb (λ a, negb (a_isUser a)) pre = true → a_isUser c = true →
       s_title <$> (chatSessions (addAll (pre ++ [c]) st) !! i) = Some (titleOf (a_text c))).
Proof.
  intros H.
  specialize (H freshProvider "chat-0" 0 (createNewChatSession 0)
                [mkAddCall "" false "msg-1-aaaaaaa" 1 1]
                (mkAddCall "hello" true "msg-2-bbbbbbb" 2 2)).
  vm_compute in H.
  assert (Some "New Chat" = Some "hello") as Habs by (apply H; (reflexivity || discriminate)).
  discriminate Habs.
Qed.

Lemma current_never_dangling_witness :
  currentKnown
    (run [AddMessage "hi" true "msg-1-aaaaaaa" 1 1; StartNewChat 5;
          SelectChatSession "chat-0"; UpdateLastAIMessage "yo" 6 6]
       (initialize [] 0 initialProvider)) = true.
Proof.
  apply (current_never_dangling [] 0
           [AddMessage "hi" true "msg-1-aaaaaaa" 1 1; StartNewChat 5;
            SelectChatSession "chat-0"; UpdateLastAIMessage "yo" 6 6]).
  reflexivity.
Defined.

(** C3, as stated, fails: [selectChatSession] with an id that no session has
    leaves the current id dangling. *)
Lemma select_unknown_dangles :
  ¬ (∀ history now calls,
       currentKnown (run calls (initialize history now initialProvider)) = true).
Proof.
  intros H. specialize (H [] 0%Z [SelectChatSession "chat-404"]).
  vm_compute in H. discriminate H.
Qed.

(** * [JSON.parse] reads back what [JSON.stringify] writes *)

(** [simpl] may unfold string concatenation on a known head. *)
#[local] Arguments String.append !_ _ : simpl nomatch.

Section Codec.

Lemma append_assoc (a b c : string) : (a +:+ b) +:+ c = a +:+ (b +:+ c).
Proof. induction a as [|x a IH]; simpl; [done|]. by rewrite IH. Qed.

Lemma append_length (a b : string) :
  String.length (a +:+ b) = String.length a + String.length b.
Proof. induction a as [|x a IH]; simpl; [done|]. by rewrite IH. Qed.

(** *** Strings *)

Lemma parse_string_escape (s rest : string) :
  parse_string (escape s +:+ String DQUOTE rest) = Some (s, rest).
Proof.
  induction s as [|c s IH]; [reflexivity|].
  change (escape (String c s)) with (escape_char c +:+ escape s).
  rewrite append_assoc.
  destruct c as [[] [] [] [] [] [] [] []]; simpl; rewrite IH; reflexivity.
Qed.

Lemma parse_string_quote (s rest : string) :
  ∃ body, quote s +:+ rest = String DQUOTE body ∧ parse_string body = Some (s, rest).
Proof.
  exists (escape s +:+ String DQUOTE rest). split.
  - unfold quote. simpl. by rewrite append_assoc.
  - apply parse_string_escape.
Qed.

(** *** Numbers *)

Lemma closes_not_digit rest :
  closes rest = true → ∀ c r, rest = String c r → digit c = None.
Proof.
  intros Hc c r ->. simpl in Hc.
  destruct c as [[] [] [] [] [] [] [] []]; try discriminate Hc; reflexivity.
Qed.

Lemma closes_not_fraction rest : closes rest = true → starts_fraction rest = false.
Proof.
  destruct rest as [|c r]; [done|]. simpl.
  destruct c as [[] [] [] [] [] [] [] []]; try discriminate; reflexivity.
Qed.

Lemma scan_digits_string_of_uint d rest :
  closes rest = true →
  scan_digits (NilEmpty.string_of_uint d +:+ rest) = (d, rest).
Proof.
  intros Hc. induction d; simpl; rewrite ?IHd; try reflexivity.
  destruct rest as [|c r]; [reflexivity|].
  simpl. by rewrite (closes_not_digit _ Hc c r).
Qed.

Lemma to_uint_head_nonzero p u : Pos.to_uint p ≠ Decimal.D0 u.
Proof.
  intros Hd.
  assert (Decimal.unorm (Pos.to_uint p) = Pos.to_uint p) as Hnorm.
  { rewrite <- (DecimalPos.Unsigned.to_of (Pos.to_uint p)).
    by rewrite DecimalPos.Unsigned.of_to. }
  rewrite Hd, DecimalFacts.unorm_D0 in Hnorm.
  destruct (Decimal.nzhead u) eqn:Hnz.
  { assert (Decimal.unorm u = Decimal.zero) as Hz by (by apply DecimalFacts.unorm_0).
    rewrite Hz in Hnorm. injection Hnorm as <-.
    by apply (DecimalPos.Unsigned.to_uint_nonzero p). }
  all: rewrite DecimalFacts.unorm_nzhead in Hnorm by (by rewrite Hnz).
  all: by apply (DecimalFacts.nzhead_nonzero u u).
Qed.


Lemma parse_number_unsigned d rest :
  d ≠ Decimal.Nil → (∀ u, d ≠ Decimal.D0 u) → closes rest = true →
  parse_number (NilEmpty.string_of_uint d +:+ rest)
    = Some (JNum (Z.of_int (Decimal.Pos d)), rest).
Proof.
  intros Hnil Hzero Hc. unfold parse_number.
  assert (scan_digits (NilEmpty.string_of_uint d +:+ rest) = (d, rest)) as Hscan
    by (by apply scan_digits_string_of_uint).
  destruct d; try (by destruct Hnil); try (by edestruct Hzero);
    simpl in *; rewrite Hscan; simpl; by rewrite closes_not_fraction.
Qed.

Lemma parse_number_negative d rest :
  d ≠ Decimal.Nil → (∀ u, d ≠ Decimal.D0 u) → closes rest = true →
  parse_number (String "-" (NilEmpty.string_of_uint d +:+ rest))
    = Some (JNum (Z.of_int (Decimal.Neg d)), rest).
Proof.
  intros Hnil Hzero Hc. unfold parse_number.
  assert (scan_digits (NilEmpty.string_of_uint d +:+ rest) = (d, rest)) as Hscan
    by (by apply scan_digits_string_of_uint).
  simpl. rewrite Hscan.
  destruct d; try (by destruct Hnil); try (by edestruct Hzero);
    simpl; by rewrite closes_not_fraction.
Qed.

Lemma parse_number_string_of_Z z rest :
  closes rest = true →
  parse_number (string_of_Z z +:+ rest) = Some (JNum z, rest).
Proof.
  intros Hc. rewrite <- (DecimalZ.of_to z) at 2. unfold string_of_Z.
  destruct z as [|p|p]; simpl Z.to_int.
  - unfold parse_number. simpl.
    replace (scan_digits rest) with (Decimal.Nil, rest).
    + simpl. by rewrite closes_not_fraction.
    + destruct rest as [|c r]; [done|]. simpl. by rewrite (closes_not_digit _ Hc c r).
  - unfold NilZero.string_of_int, NilZero.string_of_uint.
    pose proof (DecimalPos.Unsigned.to_uint_nonnil p) as Hnil.
    pose proof (to_uint_head_nonzero p) as Hzero.
    rewrite <- (parse_number_unsigned (Pos.to_uint p) rest Hnil Hzero Hc).
    by destruct (Pos.to_uint p).
  - unfold NilZero.string_of_int, NilZero.string_of_uint.
    pose proof (DecimalPos.Unsigned.to_uint_nonnil p) as Hnil.
    pose proof (to_uint_head_nonzero p) as Hzero.
    rewrite <- (parse_number_negative (Pos.to_uint p) rest Hnil Hzero Hc).
    by destruct (Pos.to_uint p).
Qed.

Lemma string_of_uint_starts d rest :
  d ≠ Decimal.Nil → starts_number (NilEmpty.string_of_uint d +:+ rest).
Proof.
  intros Hnil. destruct d; [done|..]; simpl; eexists _, _; (split; [done|]); by right.
Qed.

Lemma string_of_Z_starts z rest : starts_number (string_of_Z z +:+ rest).
Proof.
  unfold string_of_Z. destruct z as [|p|p]; simpl Z.to_int.
  - eexists _, _. split; [done|]. by right.
  - unfold NilZero.string_of_int, NilZero.string_of_uint.
    pose proof (DecimalPos.Unsigned.to_uint_nonnil p) as Hnil.
    destruct (string_of_uint_starts (Pos.to_uint p) rest Hnil) as (c & r & Heq & Hc).
    exists c, r. split; [|done]. rewrite <- Heq. by destruct (Pos.to_uint p).
  - eexists _, _. split; [done|]. by left.
Qed.

Lemma parse_value_number fuel s :
  starts_number s → parse_value (S fuel) s = parse_number s.
Proof.
  intros (c & r & -> & [->|Hd]); [reflexivity|].
  destruct c as [[] [] [] [] [] [] [] []]; try reflexivity; by destruct Hd.
Qed.


(** *** Values *)

Lemma json_nested_ind (P : json → Prop) :
  P JNull → (∀ b, P (JBool b)) → (∀ z, P (JNum z)) → (∀ s, P (JStr s)) →
  (∀ items, Forall P items → P (JArr items)) →
  (∀ members, Forall (λ kv, P (snd kv)) members → P (JObj members)) →
  ∀ v, P v.
Proof.
  intros Hnull Hbool Hnum Hstr Harr Hobj.
  fix IH 1. intros [|b|z|s|items|members].
  - exact Hnull.
  - apply Hbool.
  - apply Hnum.
  - apply Hstr.
  - apply Harr. revert items. fix IHl 1.
    intros [|x items]; constructor; [apply IH|apply IHl].
  - apply Hobj. revert members. fix IHl 1.
    intros [|[k x] members]; constructor; [apply IH|apply IHl].
Qed.

Lemma value_head_not_ws c : value_head c = true → is_ws c = false.
Proof. destruct c as [[] [] [] [] [] [] [] []]; try discriminate; reflexivity. Qed.

Lemma value_head_not_close c :
  value_head c = true → Ascii.eqb c "]" = false ∧ Ascii.eqb c "}" = false.
Proof. destruct c as [[] [] [] [] [] [] [] []]; try discriminate; by split. Qed.

Lemma stringify_head v rest :
  ∃ c r, JSON_stringify v +:+ rest = String c r ∧ value_head c = true.
Proof.
  destruct v as [|[]|z|s|items|members]; try (by eexists _, _).
  destruct (string_of_Z_starts z rest) as (c & r & Heq & Hc).
  exists c, r. split; [done|].
  destruct Hc as [->|Hd]; [done|].
  destruct c as [[] [] [] [] [] [] [] []]; try reflexivity; by destruct Hd.
Qed.

Lemma set_member_fresh k v acc :
  k ∉ map fst acc → set_member k v acc = acc ++ [(k, v)].
Proof.
  induction acc as [|[k' v'] acc IH]; intros Hk; simpl; [done|].
  simpl in Hk. apply not_elem_of_cons in Hk as [Hne Hk].
  destruct (String.eqb_spec k' k) as [->|_]; [done|]. by rewrite IH.
Qed.

Lemma fold_set_member members : ∀ acc,
  NoDup (map fst (acc ++ members)) →
  fold_left (λ acc kv, set_member (fst kv) (snd kv) acc) members acc = acc ++ members.
Proof.
  induction members as [|[k v] members IH]; intros acc Hnd; simpl.
  - by rewrite app_nil_r.
  - rewrite set_member_fresh.
    + rewrite IH; rewrite <- app_assoc; done.
    + rewrite map_app in Hnd. apply NoDup_app in Hnd as (_ & Hdisj & _).
      intros Hin. apply (Hdisj k Hin). simpl. apply list_elem_of_here.
Qed.

Lemma build_object_distinct members :
  NoDup (map fst members) → build_object members = JObj members.
Proof. intros Hnd. unfold build_object. by rewrite (fold_set_member members []). Qed.


Lemma parse_elements_eq fuel s :
  parse_elements (S fuel) s =
    match parse_value fuel s with
    | Some (v, r) =>
        match skip_ws r with
        | String c r' =>
            if Ascii.eqb c "," then
              match parse_elements fuel r' with
              | Some (vs, rest) => Some (v :: vs, rest)
              | None => None
              end
            else if Ascii.eqb c "]" then Some ([v], r')
            else None
        | EmptyString => None
        end
    | None => None
    end.
Proof. reflexivity. Qed.

Lemma parse_members_eq fuel r0 :
  parse_members (S fuel) (String DQUOTE r0) =
    match parse_string r0 with
    | Some (k, r1) =>
        match skip_ws r1 with
        | String colon r2 =>
            if Ascii.eqb colon ":" then
              match parse_value fuel r2 with
              | Some (v, r3) =>
                  match skip_ws r3 with
                  | String c r' =>
                      if Ascii.eqb c "," then
                        match parse_members fuel r' with
                        | Some (ms, rest) => Some ((k, v) :: ms, rest)
                        | None => None
                        end
                      else if Ascii.eqb c "}" then Some ([(k, v)], r')
                      else None
                  | EmptyString => None
                  end
              | None => None
              end
            else None
        | EmptyString => None
        end
    | None => None
    end.
Proof. reflexivity. Qed.

Lemma join_cons2 sep a b l : join sep (a :: b :: l) = a +:+ sep +:+ join sep (b :: l).
Proof. reflexivity. Qed.

Lemma parse_elements_ok items :
  items ≠ [] → Forall reads_back items →
  ∀ fuel rest, need_items items ≤ fuel →
    parse_elements fuel (join "," (map JSON_stringify items) +:+ String "]" rest)
      = Some (items, rest).
Proof.
  induction items as [|x items IH]; [done|].
  intros _ Hall fuel rest Hfuel.
  apply Forall_cons in Hall as [Hx Hitems].
  destruct fuel as [|fuel]; [simpl in Hfuel; lia|].
  simpl in Hfuel. rewrite parse_elements_eq.
  destruct items as [|y items].
  - simpl. rewrite (Hx fuel (String "]" rest)) by (done || lia). reflexivity.
  - cbn [map]. rewrite join_cons2, !append_assoc.
    change ("," +:+ ?t) with (String "," t).
    rewrite (Hx fuel) by (done || lia).
    cbn [skip_ws is_ws Ascii.eqb Bool.eqb orb].
    pose proof (IH ltac:(done) Hitems fuel rest ltac:(lia)) as Hrest.
    cbn [map] in Hrest. by rewrite Hrest.
Qed.


Lemma member_text_app k v tail :
  member_text (k, v) +:+ tail =
    String DQUOTE (escape k +:+ String DQUOTE (String ":" (JSON_stringify v +:+ tail))).
Proof. unfold member_text, quote. simpl. by rewrite !append_assoc. Qed.

Lemma parse_members_ok members :
  members ≠ [] → Forall (λ kv, reads_back (snd kv)) members →
  ∀ fuel rest, need_members members ≤ fuel →
    parse_members fuel (join "," (map member_text members) +:+ String "}" rest)
      = Some (members, rest).
Proof.
  induction members as [|[k v] members IH]; [done|].
  intros _ Hall fuel rest Hfuel.
  apply Forall_cons in Hall as [Hv Hmembers]. simpl in Hv.
  destruct fuel as [|fuel]; [simpl in Hfuel; lia|].
  simpl in Hfuel.
  destruct members as [|kv members].
  - cbn [map join]. rewrite member_text_app, parse_members_eq, parse_string_escape.
    cbn [skip_ws is_ws Ascii.eqb Bool.eqb orb].
    rewrite (Hv fuel (String "}" rest)) by (done || lia). reflexivity.
  - cbn [map]. rewrite join_cons2, append_assoc, member_text_app.
    rewrite parse_members_eq, parse_string_escape.
    cbn [skip_ws is_ws Ascii.eqb Bool.eqb orb].
    rewrite append_assoc. change ("," +:+ ?t) with (String "," t).
    rewrite (Hv fuel) by (done || lia).
    cbn [skip_ws is_ws Ascii.eqb Bool.eqb orb].
    pose proof (IH ltac:(done) Hmembers fuel rest ltac:(lia)) as Hrest.
    cbn [map] in Hrest. by rewrite Hrest.
Qed.

Lemma forallb_Forall_reads_back items :
  Forall (λ v, distinct_keys v = true → reads_back v) items →
  forallb distinct_keys items = true → Forall reads_back items.
Proof.
  induction 1 as [|x items Hx _ IH]; intros Hd; [constructor|].
  simpl in Hd. apply andb_true_iff in Hd as [Hdx Hd]. constructor; auto.
Qed.

Lemma forallb_Forall_reads_back_members (members : list (string * json)) :
  Forall (λ kv, distinct_keys (snd kv) = true → reads_back (snd kv)) members →
  forallb (λ kv, distinct_keys (snd kv)) members = true →
  Forall (λ kv, reads_back (snd kv)) members.
Proof.
  induction 1 as [|x members Hx _ IH]; intros Hd; [constructor|].
  simpl in Hd. apply andb_true_iff in Hd as [Hdx Hd]. constructor; auto.
Qed.

Lemma parse_value_array fuel c r :
  value_head c = true →
  parse_value (S fuel) (String "[" (String c r)) =
    match parse_elements fuel (String c r) with
    | Some (items, rest) => Some (JArr items, rest)
    | None => None
    end.
Proof.
  intros Hhead. cbn [parse_value skip_ws is_ws Ascii.eqb Bool.eqb orb].
  rewrite (value_head_not_ws c Hhead).
  by rewrite (proj1 (value_head_not_close c Hhead)).
Qed.

Lemma parse_value_object fuel r :
  parse_value (S fuel) (String "{" (String DQUOTE r)) =
    match parse_members fuel (String DQUOTE r) with
    | Some (members, rest) => Some (build_object members, rest)
    | None => None
    end.
Proof. reflexivity. Qed.

Lemma join_head x items tail :
  ∃ c r, join "," (map JSON_stringify (x :: items)) +:+ tail = String c r ∧
         value_head c = true.
Proof.
  destruct items as [|y items].
  - apply stringify_head.
  - cbn [map]. rewrite join_cons2, append_assoc. apply stringify_head.
Qed.

Lemma join_members_head kv members tail :
  ∃ r, join "," (map member_text (kv :: members)) +:+ tail = String DQUOTE r.
Proof.
  destruct kv as [k v]. destruct members as [|kv' members].
  - cbn [map join]. rewrite member_text_app. by eexists.
  - cbn [map]. rewrite join_cons2, append_assoc, member_text_app. by eexists.
Qed.

(** Every value without duplicate keys is read back. *)
Lemma parse_value_stringify v : distinct_keys v = true → reads_back v.
Proof.
  induction v as [|b|z|s|items IH|members IH] using json_nested_ind;
    intros Hd fuel rest Hfuel Hc;
    (destruct fuel as [|fuel]; [simpl in Hfuel; lia|]).
  - reflexivity.
  - by destruct b.
  - rewrite parse_value_number by apply string_of_Z_starts.
    by apply parse_number_string_of_Z.
  - destruct (parse_string_quote s rest) as (body & Heq & Hbody).
    cbn [JSON_stringify]. rewrite Heq. simpl. by rewrite Hbody.
  - simpl in Hd. pose proof (forallb_Forall_reads_back items IH Hd) as Hall.
    cbn [JSON_stringify]. rewrite !append_assoc.
    destruct items as [|x items]; [reflexivity|].
    pose proof (parse_elements_ok (x :: items) ltac:(done) Hall fuel rest) as Hitems.
    cbn [need] in Hfuel. fold (need_items (x :: items)) in Hfuel.
    specialize (Hitems ltac:(lia)).
    change ("[" +:+ ?t) with (String "[" t). change ("]" +:+ ?t) with (String "]" t).
    destruct (join_head x items (String "]" rest)) as (c & r & Heq & Hhead).
    rewrite Heq in *. rewrite parse_value_array by done. by rewrite Hitems.
  - simpl in Hd. apply andb_true_iff in Hd as [Hnd Hd].
    apply bool_decide_eq_true in Hnd.
    pose proof (forallb_Forall_reads_back_members members IH Hd) as Hall.
    cbn [JSON_stringify]. rewrite !append_assoc.
    destruct members as [|kv members]; [reflexivity|].
    pose proof (parse_members_ok (kv :: members) ltac:(done) Hall fuel rest) as Hmembers.
    cbn [need] in Hfuel. fold (need_members (kv :: members)) in Hfuel.
    specialize (Hmembers ltac:(lia)).
    change ("{" +:+ ?t) with (String "{" t). change ("}" +:+ ?t) with (String "}" t).
    fold member_text.
    destruct (join_members_head kv members (String "}" rest)) as (r & Heq).
    change (λ kv0 : string * json, quote (fst kv0) +:+ ":" +:+ JSON_stringify (snd kv0))
      with member_text.
    rewrite Heq in *. rewrite parse_value_object, Hmembers.
    by rewrite build_object_distinct.
Qed.


(** *** The fuel [JSON_parse] gives is enough *)

Lemma append_nil_r (a : string) : a +:+ EmptyString = a.
Proof. induction a as [|x a IH]; simpl; [done|]. by rewrite IH. Qed.

Lemma need_items_bound items :
  Forall (λ v, need v ≤ 2 * String.length (JSON_stringify v)) items →
  need_items items ≤ 2 * String.length (join "," (map JSON_stringify items)) + 1.
Proof.
  induction 1 as [|x items Hx _ IH]; [simpl; lia|].
  destruct items as [|y items].
  - simpl. lia.
  - cbn [map]. rewrite join_cons2, !append_length.
    change (need_items (x :: y :: items))
      with (S (Nat.max (need x) (need_items (y :: items)))).
    change (JSON_stringify y :: map JSON_stringify items)
      with (map JSON_stringify (y :: items)).
    change (String.length ",") with 1. lia.
Qed.

Lemma need_members_bound (members : list (string * json)) :
  Forall (λ kv, need (snd kv) ≤ 2 * String.length (JSON_stringify (snd kv))) members →
  need_members members ≤ 2 * String.length (join "," (map member_text members)) + 1.
Proof.
  induction 1 as [|[k v] members Hx _ IH]; [simpl; lia|].
  assert (String.length (JSON_stringify v) ≤ String.length (member_text (k, v))) as Hlen.
  { unfold member_text. rewrite !append_length. simpl. lia. }
  cbn [snd] in Hx.
  destruct members as [|kv members].
  - cbn [map join]. change (need_members [(k, v)]) with (S (Nat.max (need v) 0)). lia.
  - cbn [map]. rewrite join_cons2, !append_length.
    change (need_members ((k, v) :: kv :: members))
      with (S (Nat.max (need v) (need_members (kv :: members)))).
    change (member_text kv :: map member_text members)
      with (map member_text (kv :: members)).
    change (String.length ",") with 1. lia.
Qed.

Lemma need_bound v : need v ≤ 2 * String.length (JSON_stringify v).
Proof.
  induction v as [|b|z|s|items IH|members IH] using json_nested_ind.
  - simpl. lia.
  - destruct b; simpl; lia.
  - destruct (string_of_Z_starts z EmptyString) as (c & r & Heq & _).
    rewrite append_nil_r in Heq. cbn [JSON_stringify need]. rewrite Heq. simpl. lia.
  - simpl. lia.
  - pose proof (need_items_bound items IH) as Hb.
    cbn [JSON_stringify need]. fold (need_items items).
    rewrite !append_length. simpl String.length. lia.
  - pose proof (need_members_bound members IH) as Hb.
    cbn [JSON_stringify need]. fold (need_members members).
    change (λ kv : string * json, quote (fst kv) +:+ ":" +:+ JSON_stringify (snd kv))
      with member_text.
    rewrite !append_length. simpl String.length. lia.
Qed.

(** [JSON.parse(JSON.stringify(v))] is [v]. *)
Lemma JSON_parse_stringify v :
  distinct_keys v = true → JSON_parse (JSON_stringify v) = Some v.
Proof.
  intros Hd. unfold JSON_parse.
  pose proof (need_bound v) as Hneed.
  pose proof (parse_value_stringify v Hd
                (2 * String.length (JSON_stringify v) + 2) EmptyString
                ltac:(lia) eq_refl) as Hparse.
  rewrite append_nil_r in Hparse. by rewrite Hparse.
Qed.

End Codec.

(** * The store adapter: what is saved is what is loaded *)

Section Store.

Lemma message_of_to_json m : message_of_json (message_to_json m) = Some m.
Proof. by destruct m. Qed.

Lemma messages_of_to_json msgs :
  mapM message_of_json (map message_to_json msgs) = Some msgs.
Proof.
  induction msgs as [|m msgs IH]; [done|].
  cbn [map mapM]. rewrite message_of_to_json, IH. reflexivity.
Qed.

Lemma session_of_to_json session : session_of_json (session_to_json session) = Some session.
Proof.
  destruct session as [i t msgs c u]. unfold session_to_json, session_of_json.
  cbn [s_id s_title s_messages s_createdAt s_updatedAt].
  cbn [String.eqb Ascii.eqb Bool.eqb andb]. by rewrite messages_of_to_json.
Qed.

Lemma asSessions_history history : asSessions (history_to_json history) = Sessions history.
Proof.
  unfold asSessions, history_to_json.
  assert (mapM session_of_json (map session_to_json history) = Some history) as ->; [|done].
  induction history as [|session history IH]; [done|].
  cbn [map mapM]. rewrite session_of_to_json, IH. reflexivity.
Qed.

Lemma distinct_keys_messages msgs :
  forallb distinct_keys (map message_to_json msgs) = true.
Proof. induction msgs as [|m msgs IH]; [done|]. cbn [map forallb]. by rewrite IH. Qed.

Lemma distinct_keys_history history : distinct_keys (history_to_json history) = true.
Proof.
  unfold history_to_json. cbn [distinct_keys].
  induction history as [|session history IH]; [done|].
  cbn [map forallb]. rewrite IH, andb_true_r.
  unfold session_to_json. cbn [distinct_keys map fst snd forallb].
  rewrite distinct_keys_messages. by vm_compute.
Qed.

Lemma stringify_history_nonempty history :
  String.eqb (JSON_stringify (history_to_json history)) EmptyString = false.
Proof. reflexivity. Qed.

(** C9.  With a [window], and the text fitting the quota so that [setItem]
    does not throw, [loadChatHistory()] after [saveChatHistory(history)]
    returns the sessions that were saved, field for field. *)
Theorem load_after_save history b :
  hasWindow b = true →
  String.length (JSON_stringify (history_to_json history)) ≤ quota b →
  fst (loadChatHistory (saveChatHistory history b)) = Sessions history.
Proof.
  intros Hwin Hquota. unfold saveChatHistory, setItem. rewrite Hwin. cbn [negb].
  apply Nat.leb_le in Hquota. rewrite Hquota.
  unfold loadChatHistory, getItem. cbn [hasWindow localStorage negb].
  rewrite lookup_insert_eq, stringify_history_nonempty.
  rewrite JSON_parse_stringify by apply distinct_keys_history.
  cbn [fst]. apply asSessions_history.
Qed.

End Store.

Lemma load_after_save_witness :
  fst (loadChatHistory (saveChatHistory exampleHistory exampleBrowser))
    = Sessions exampleHistory.
Proof.
  apply (load_after_save exampleHistory exampleBrowser);
    [reflexivity | apply Nat.leb_le; vm_compute; reflexivity].
Defined.

(** * The streaming pipeline *)

Section PipelineFacts.

Variable oracle : Oracle.

Implicit Types (st : Provider) (w : World) (cur : string).

(** *** The current messages under the manager's operations *)

Lemma find_fmap_same_id (f : ChatSession → ChatSession) cur l :
  (∀ session, s_id (f session) = s_id session) →
  List.find (λ session, String.eqb (s_id session) cur) (f <$> l) =
  f <$> List.find (λ session, String.eqb (s_id session) cur) l.
Proof.
  intros Hf. induction l as [|x l IH]; csimpl; [done|].
  rewrite Hf. by destruct (String.eqb (s_id x) cur).
Qed.

Lemma find_known cur st :
  knownId cur st = true →
  ∃ session, List.find (λ session, String.eqb (s_id session) cur) (chatSessions st)
               = Some session ∧ s_id session = cur.
Proof.
  unfold knownId. induction (chatSessions st) as [|x l IH]; simpl; [done|].
  destruct (String.eqb (s_id x) cur) eqn:Hx; [|done].
  intros _. exists x. split; [done|]. by apply String.eqb_eq.
Qed.

Lemma addMessage_currentChatMessages text isUser mid ts upd st :
  sendable st = true →
  currentChatMessages (addMessageToCurrentChat text isUser mid ts upd st) =
    currentChatMessages st ++
      [{| m_id := mid; m_text := text; m_isUser := isUser; m_timestamp := ts |}].
Proof.
  unfold sendable, currentChatMessages, currentSession, addMessageToCurrentChat.
  destruct (currentChatSessionId st) as [cur|] eqn:Hcur; [|done].
  intros [Hne Hknown]%andb_true_iff. apply negb_true_iff in Hne. rewrite Hne.
  simpl. rewrite Hcur.
  rewrite find_fmap_same_id by (intros; apply appendTo_id).
  destruct (find_known cur st Hknown) as (session & -> & Hid).
  simpl. unfold appendTo. apply String.eqb_eq in Hid. by rewrite Hid.
Qed.

Lemma addMessage_sendable text isUser mid ts upd st :
  sendable (addMessageToCurrentChat text isUser mid ts upd st) = sendable st.
Proof.
  unfold sendable. rewrite addMessage_current.
  destruct (currentChatSessionId st); [|done]. by rewrite addMessage_knownId.
Qed.

Lemma updateLast_awaiting cur msgs m newText ts upd st :
  awaiting cur msgs m st →
  awaiting cur msgs
    {| m_id := m_id m; m_text := newText; m_isUser := m_isUser m; m_timestamp := ts |}
    (updateLastAIMessage newText ts upd st).
Proof.
  intros (Hcur & Hne & Hmsgs & Hai).
  unfold awaiting. rewrite updateLast_current. repeat split; try done.
  unfold currentChatMessages, currentSession, updateLastAIMessage in *.
  rewrite Hcur in *. apply String.eqb_neq in Hne. rewrite Hne. simpl. rewrite Hcur.
  rewrite find_fmap_same_id by (intros; apply patchLast_id).
  destruct (List.find _ (chatSessions st)) as [session|] eqn:Hfind;
    [|by destruct msgs].
  apply find_some in Hfind as [_ Hid]. simpl. unfold patchLast. rewrite Hid, Hmsgs.
  rewrite length_app. simpl.
  replace (Z.to_nat (Z.of_nat (length msgs + 1) - 1)) with (length msgs + 0) by lia.
  destruct (0 <=? _)%Z eqn:Hle; [|apply Z.leb_gt in Hle; lia].
  rewrite lookup_app_r by lia.
  replace (length msgs + 0 - length msgs) with 0 by lia. simpl. rewrite Hai. simpl.
  rewrite insert_app_r. done.
Qed.


(** *** The loops, line by line *)

Lemma processLine_run line w :
  processLine oracle line w = runAction oracle line (lineAction line) w.
Proof.
  unfold processLine, lineAction.
  destruct (startsWith "data: " line); [|reflexivity].
  unfold try_catch, bind, parseJSON.
  destruct (JSON_parse (slice_from 6 line)) as [data|]; [|reflexivity].
  destruct data as [|b|z|s|items|members]; try reflexivity.
  cbn [member getMember ret].
  destruct (truthy (snd <$> List.find _ members)); [reflexivity|].
  destruct (truthy (snd <$> List.find _ members)); reflexivity.
Qed.

Lemma deliver_streaming cur msgs pid T flag text0 text w :
  streaming cur msgs pid T flag text0 w →
  ∃ w', deliver oracle text w = (Returns tt, w') ∧
        accumulatedContent w' = accumulatedContent w +:+ text ∧
        streaming cur msgs pid T flag (accumulatedContent w') w'.
Proof.
  intros (m & Hm & Hid & _ & HT & Hflag).
  eexists. split; [reflexivity|]. split; [reflexivity|].
  eexists. split; [apply updateLast_awaiting, Hm|]. done.
Qed.

Lemma forLines_spec cur msgs pid T flag lines : ∀ text0 w,
  streaming cur msgs pid T flag text0 w →
  ∃ w', forLines oracle lines w = (Returns tt, w') ∧
        accumulatedContent w' =
          accumulatedContent w +:+ concatenation (deliveredByLines lines) ∧
        streaming cur msgs pid T flag
          (match deliveredByLines lines with
           | [] => text0
           | _ :: _ => accumulatedContent w'
           end) w'.
Proof.
  induction lines as [|line lines IH]; intros text0 w Hw.
  - exists w. simpl. by rewrite append_nil_r.
  - cbn [forLines deliveredByLines]. unfold bind at 1. rewrite processLine_run.
    destruct (lineAction line) as [| |text stop|stop]; cbn [runAction].
    + apply IH, Hw.
    + unfold bind at 1. cbn [consoleWrite ret].
      match goal with |- context [forLines oracle lines ?w1] =>
        destruct (IH text0 w1) as (w' & Hrun & Hacc & Hs) end.
      { destruct Hw as (m & Hm). by exists m. }
      exists w'. done.
    + destruct (deliver_streaming _ _ _ _ _ _ text w Hw) as (w1 & Hrun1 & Hacc1 & Hs1).
      unfold bind at 1. rewrite Hrun1. cbn [ret].
      destruct stop.
      * exists w1. cbn [concatenation]. rewrite append_nil_r. done.
      * destruct (IH _ w1 Hs1) as (w' & Hrun & Hacc & Hs).
        exists w'. split; [done|]. split.
        { cbn [concatenation]. by rewrite Hacc, Hacc1, append_assoc. }
        destruct (deliveredByLines lines); [|done].
        simpl in Hacc. rewrite append_nil_r in Hacc. by rewrite Hacc.
    + destruct stop.
      * exists w. simpl. by rewrite append_nil_r.
      * apply IH, Hw.
Qed.


Lemma concatenation_app a b :
  concatenation (a ++ b) = concatenation a +:+ concatenation b.
Proof. induction a as [|x a IH]; simpl; [done|]. by rewrite IH, append_assoc. Qed.

Lemma readLoop_spec cur msgs pid T flag reads : ∀ text0 w,
  streaming cur msgs pid T flag text0 w →
  ∃ r w', readLoop oracle reads w = (r, w') ∧
          (if endsWell reads then r = Returns tt else ∃ reason, r = Throws reason) ∧
          accumulatedContent w' = accumulatedContent w +:+ concatenation (delivered reads) ∧
          streaming cur msgs pid T flag
            (match delivered reads with
             | [] => text0
             | _ :: _ => accumulatedContent w'
             end) w'.
Proof.
  induction reads as [|[chunk|reason] reads IH]; intros text0 w Hw.
  - exists (Returns tt), w. simpl. by rewrite append_nil_r.
  - destruct (forLines_spec cur msgs pid T flag (split NEWLINE chunk) text0 w Hw)
      as (w1 & Hrun1 & Hacc1 & Hs1).
    destruct (IH _ w1 Hs1) as (r & w' & Hrun & Hr & Hacc & Hs).
    exists r, w'. cbn [readLoop delivered endsWell forallb andb].
    unfold bind at 1. rewrite Hrun1. split; [done|]. split; [done|]. split.
    + by rewrite Hacc, Hacc1, concatenation_app, append_assoc.
    + destruct (delivered reads) as [|t ts].
      * rewrite app_nil_r. simpl in Hacc. rewrite append_nil_r in Hacc.
        rewrite Hacc. by destruct (deliveredByLines _).
      * by destruct (deliveredByLines _).
  - exists (Throws reason), w. simpl. rewrite append_nil_r.
    split; [done|]. split; [by eexists|]. done.
Qed.

Lemma callAddMessage_run text isUser w :
  ∃ w1 mid ts upd,
    callAddMessage oracle text isUser w = (Returns tt, w1) ∧
    provider w1 = addMessageToCurrentChat text isUser mid ts upd (provider w) ∧
    toasts w1 = toasts w ∧ isSendingMessage w1 = isSendingMessage w.
Proof. eexists _, _, _, _. split; [reflexivity|]. done. Qed.

Lemma sendable_current st :
  sendable st = true →
  ∃ cur, currentChatSessionId st = Some cur ∧ cur ≠ EmptyString.
Proof.
  unfold sendable. destruct (currentChatSessionId st) as [cur|]; [|done].
  intros [Hne _]%andb_true_iff. exists cur. split; [done|].
  apply negb_true_iff in Hne. by apply String.eqb_neq.
Qed.

(** The placeholder is in place, and the stream can be read. *)
Lemma placeholder_streaming w :
  sendable (provider w) = true →
  ∃ cur pid w1,
    callAddMessage oracle EmptyString false w = (Returns tt, w1) ∧
    streaming cur (currentChatMessages (provider w)) pid (toasts w)
      (isSendingMessage w) EmptyString w1.
Proof.
  intros Hs. destruct (sendable_current _ Hs) as (cur & Hcur & Hne).
  destruct (callAddMessage_run EmptyString false w)
    as (w1 & mid & ts & upd & Hrun & Hp & HT & Hflag).
  exists cur, mid, w1. split; [done|].
  exists {| m_id := mid; m_text := EmptyString; m_isUser := false; m_timestamp := ts |}.
  split; [|done]. unfold awaiting. rewrite Hp.
  rewrite addMessage_current, addMessage_currentChatMessages by done. done.
Qed.


Lemma setAccumulatedContent_streaming cur msgs pid T flag txt s w :
  streaming cur msgs pid T flag txt w →
  streaming cur msgs pid T flag txt (snd (setAccumulatedContent s w)).
Proof. intros (m & Hm). by exists m. Qed.

(** What the body of the outer [try] leaves behind. *)
Lemma tryBody_spec answer w :
  sendable (provider w) = true →
  ∃ cur pid r w' txt,
    tryBody oracle answer w = (r, w') ∧
    streaming cur (currentChatMessages (provider w)) pid (toasts w)
      (isSendingMessage w) txt w' ∧
    match reply answer with
    | Some t => r = Returns tt ∧ txt = t
    | None => ∃ reason, r = Throws reason
    end ∧
    (∀ resp reads, answer = Responds resp → ok resp = true → body resp = Some reads →
       accumulatedContent w' = concatenation (delivered reads)).
Proof.
  intros Hsend.
  destruct (placeholder_streaming w Hsend) as (cur & pid & w1 & Hrun1 & Hs1).
  exists cur, pid. unfold tryBody. unfold bind at 1. rewrite Hrun1.
  destruct answer as [resp|reason]; cbn [reply].
  2:{ exists (Throws reason), w1, EmptyString.
      split; [done|]. split; [done|]. split; [by eexists|]. by intros. }
  unfold bind at 1. cbn [ret]. unfold bind at 1.
  destruct (ok resp) eqn:Hok; cbn [negb throw ret].
  2:{ eexists _, w1, EmptyString.
      split; [done|]. split; [done|]. split; [by eexists|]. intros ???; congruence. }
  unfold bind at 1. cbn [setAccumulatedContent].
  pose proof (setAccumulatedContent_streaming _ _ _ _ _ _ EmptyString w1 Hs1) as Hs2.
  cbn [setAccumulatedContent snd] in Hs2.
  set (w2 := {| provider := provider w1; isSendingMessage := isSendingMessage w1;
                toasts := toasts w1; consoleLog := consoleLog w1;
                accumulatedContent := EmptyString; ticks := ticks w1 |}) in *.
  unfold bind at 1.
  destruct (body resp) as [reads|] eqn:Hbody; cbn [ret throw].
  2:{ eexists _, w2, EmptyString.
      split; [done|]. split; [done|]. split; [by eexists|]. intros ???; congruence. }
  destruct (readLoop_spec cur _ pid _ _ reads EmptyString w2 Hs2)
    as (r & w3 & Hrun3 & Hr & Hacc & Hs3).
  change (accumulatedContent w2) with EmptyString in Hacc. cbn [String.append] in Hacc.
  assert (∀ resp' reads', Responds resp = Responds resp' → ok resp' = true →
            body resp' = Some reads' →
            accumulatedContent w3 = concatenation (delivered reads')) as Hfinal.
  { intros resp' reads' [= <-] _ Hb. rewrite Hbody in Hb. by injection Hb as <-. }
  unfold bind at 1. rewrite Hrun3.
  destruct (endsWell reads).
  2:{ destruct Hr as [reason ->]. eexists _, w3, _.
      split; [done|]. split; [exact Hs3|]. split; [by eexists|]. done. }
  rewrite Hr. unfold bind at 1. cbn [getAccumulatedContent].
  rewrite <- Hacc.
  destruct (String.eqb (accumulatedContent w3) EmptyString) eqn:Hempty.
  - eexists _, w3, _. split; [done|]. split; [exact Hs3|]. split; [by eexists|]. done.
  - eexists _, w3, _. split; [done|]. split; [exact Hs3|]. split; [|done].
    split; [done|]. destruct (delivered reads); [|done].
    simpl in Hacc. rewrite Hacc in Hempty. done.
Qed.


Lemma onError_streaming cur msgs pid T flag txt error w :
  streaming cur msgs pid T flag txt w →
  ∃ w', onError oracle error w = (Returns tt, w') ∧
        streaming cur msgs pid (T ++ [ErrorShown ERROR_TOAST]) flag APOLOGY w' ∧
        accumulatedContent w' = accumulatedContent w.
Proof.
  intros (m & Hm & Hid & _ & HT & Hflag).
  eexists. split; [reflexivity|]. split; [|reflexivity].
  eexists. split; [apply updateLast_awaiting, Hm|]. cbn. by rewrite HT.
Qed.

(** The whole of [handleSendMessage], for a component that has a current
    session: it returns, the current session shows the user message and then
    the assistant message, which holds the reply or the apology; the
    notifications are the loading one, the error one on the failure path, and
    the dismissal; the flag is down. *)
Lemma handleSendMessage_spec answer text w :
  sendable (provider w) = true →
  ∃ userMsg aiMsg w',
    handleSendMessage oracle answer text w = (Returns tt, w') ∧
    currentChatMessages (provider w') =
      currentChatMessages (provider w) ++ [userMsg; aiMsg] ∧
    m_text userMsg = text ∧ m_isUser userMsg = true ∧ m_isUser aiMsg = false ∧
    m_text aiMsg = default APOLOGY (reply answer) ∧
    toasts w' =
      toasts w ++ [LoadingShown (length (toasts w)) LOADING_TOAST] ++
        match reply answer with Some _ => [] | None => [ErrorShown ERROR_TOAST] end ++
        [Dismissed (length (toasts w))] ∧
    isSendingMessage w' = false ∧
    (∀ resp reads, answer = Responds resp → ok resp = true → body resp = Some reads →
       accumulatedContent w' = concatenation (delivered reads)).
Proof.
  intros Hsend.
  destruct (callAddMessage_run text true w)
    as (w1 & mid & ts & upd & Hrun1 & Hp1 & HT1 & Hflag1).
  unfold handleSendMessage. unfold bind at 1. rewrite Hrun1.
  unfold bind at 1. cbn [setIsSendingMessage]. unfold bind at 1.
  unfold showLoading at 1. unfold bind at 1.
  cbn [notify ret provider isSendingMessage toasts consoleLog accumulatedContent ticks].
  set (w3 := {| provider := provider w1; isSendingMessage := true;
                toasts := toasts w1 ++ [LoadingShown (length (toasts w1)) LOADING_TOAST];
                consoleLog := consoleLog w1; accumulatedContent := accumulatedContent w1;
                ticks := ticks w1 |}).
  assert (sendable (provider w3) = true) as Hsend3.
  { cbn [w3 provider]. by rewrite Hp1, addMessage_sendable. }
  destruct (tryBody_spec answer w3 Hsend3)
    as (cur & pid & r & w4 & txt & Hrun4 & Hs4 & Hreply & Hacc4).
  assert (currentChatMessages (provider w3) = currentChatMessages (provider w) ++
           [{| m_id := mid; m_text := text; m_isUser := true; m_timestamp := ts |}]) as Hmsgs3.
  { cbn [w3 provider]. by rewrite Hp1, addMessage_currentChatMessages. }
  rewrite Hmsgs3 in Hs4. cbn [w3 toasts isSendingMessage] in Hs4.
  unfold try_finally, try_catch. rewrite Hrun4. rewrite HT1 in *.
  destruct (reply answer) as [t|].
  - destruct Hreply as [-> ->]. destruct Hs4 as (m & (Hcur & Hne & Hm & Hai) & _ & Htxt & HT & Hflag).
    eexists _, m, _. split; [reflexivity|]. cbn.
    rewrite Hm, <- app_assoc. repeat split; try done. by rewrite HT, <- app_assoc.
  - destruct Hreply as [reason ->].
    destruct (onError_streaming _ _ _ _ _ _ reason w4 Hs4) as (w5 & Hrun5 & Hs5 & Hacc5).
    rewrite Hrun5.
    destruct Hs5 as (m & (Hcur & Hne & Hm & Hai) & _ & Htxt & HT & Hflag).
    eexists _, m, _. split; [reflexivity|]. cbn.
    rewrite Hm, <- app_assoc. repeat split; try done.
    + by rewrite HT, <- !app_assoc.
    + intros resp reads ???. rewrite Hacc5. eauto.
Qed.

End PipelineFacts.

(** * What a send leaves behind *)

Section Sends.

Variable oracle : Oracle.

(** C8.  Against a backend that answers with status 500, for every text,
    [handleSendMessage(text)] completes with the current session showing the
    user message with that text followed by an assistant message whose text is
    the apology, and with the sending flag false. *)
Theorem send_against_status_500 text w resp :
  sendable (provider w) = true →
  status resp = 500%Z →
  ∃ userMsg aiMsg w',
    handleSendMessage oracle (Responds resp) text w = (Returns tt, w') ∧
    currentChatMessages (provider w') =
      currentChatMessages (provider w) ++ [userMsg; aiMsg] ∧
    m_text userMsg = text ∧ m_isUser userMsg = true ∧
    m_text aiMsg = APOLOGY ∧ m_isUser aiMsg = false ∧
    isSendingMessage w' = false.
Proof.
  intros Hsend Hstatus.
  destruct (handleSendMessage_spec oracle (Responds resp) text w Hsend)
    as (userMsg & aiMsg & w' & Hrun & Hmsgs & Htext & Huser & Hai & Hreply & _ & Hflag & _).
  exists userMsg, aiMsg, w'.
  split_and!; [exact Hrun|exact Hmsgs|exact Htext|exact Huser| |exact Hai|exact Hflag].
  rewrite Hreply. unfold reply, ok. rewrite Hstatus. reflexivity.
Qed.

(** C5.  When the request succeeds and the stream delivers the three lines
    [data: {"content":"Hel"}], [data: {"content":"lo"}], [data: {"done":true}],
    each ended by a newline, in two reads (the first [j] lines in the first
    read, the others in the second), the send completes with the assistant
    message holding ["Hello"]. *)
Theorem streamed_hello text w resp j :
  sendable (provider w) = true →
  ok resp = true →
  body resp = Some (map Chunk (inTwoReads j helloLines)) →
  ∃ userMsg aiMsg w',
    handleSendMessage oracle (Responds resp) text w = (Returns tt, w') ∧
    currentChatMessages (provider w') =
      currentChatMessages (provider w) ++ [userMsg; aiMsg] ∧
    m_text userMsg = text ∧ m_isUser userMsg = true ∧
    m_text aiMsg = "Hello" ∧ m_isUser aiMsg = false.
Proof.
  intros Hsend Hok Hbody.
  destruct (handleSendMessage_spec oracle (Responds resp) text w Hsend)
    as (userMsg & aiMsg & w' & Hrun & Hmsgs & Htext & Huser & Hai & Hreply & _).
  exists userMsg, aiMsg, w'.
  split_and!; [exact Hrun|exact Hmsgs|exact Htext|exact Huser| |exact Hai].
  rewrite Hreply. unfold reply. rewrite Hok, Hbody.
  destruct j as [|[|[|[|j]]]]; vm_compute; reflexivity.
Qed.

(** C6.  When the request succeeds and the stream delivers the lines
    [data: {not valid json}], [data: {"content":"ok"}], [data: {"done":true}]
    (the last one with or without its newline), however the lines are
    distributed over three reads, the send completes on the success path: the
    malformed record is reported to the console and skipped, no error is
    notified, and the assistant message holds ["ok"]. *)
Theorem malformed_record_tolerated text w resp j k lastNewline :
  sendable (provider w) = true →
  ok resp = true →
  body resp = Some (map Chunk (inThreeReads j k (tolerantLines lastNewline))) →
  ∃ userMsg aiMsg w',
    handleSendMessage oracle (Responds resp) text w = (Returns tt, w') ∧
    currentChatMessages (provider w') =
      currentChatMessages (provider w) ++ [userMsg; aiMsg] ∧
    m_text aiMsg = "ok" ∧ m_isUser aiMsg = false ∧
    toasts w' = toasts w ++ [LoadingShown (length (toasts w)) LOADING_TOAST;
                             Dismissed (length (toasts w))] ∧
    isSendingMessage w' = false.
Proof.
  intros Hsend Hok Hbody.
  destruct (handleSendMessage_spec oracle (Responds resp) text w Hsend)
    as (userMsg & aiMsg & w' & Hrun & Hmsgs & Htext & Huser & Hai & Hreply & HT & Hflag & _).
  assert (reply (Responds resp) = Some "ok") as Hr.
  { unfold reply. rewrite Hok, Hbody.
    destruct lastNewline;
      destruct j as [|[|[|[|j]]]]; destruct k as [|[|[|[|k]]]]; vm_compute; reflexivity. }
  rewrite Hr in Hreply, HT. exists userMsg, aiMsg, w'.
  split_and!; [exact Hrun|exact Hmsgs|exact Hreply|exact Hai|exact HT|exact Hflag].
Qed.

(** C7.  When the request succeeds and the reading of the stream leaves the
    accumulator empty, the send takes the failure path: the assistant message
    holds the apology, and the notifications of the send are the loading one,
    one error notification, and the dismissal. *)
Theorem empty_accumulator_fails text w resp reads :
  sendable (provider w) = true →
  ok resp = true →
  body resp = Some reads →
  accumulatedContent (snd (handleSendMessage oracle (Responds resp) text w)) = EmptyString →
  ∃ userMsg aiMsg w',
    handleSendMessage oracle (Responds resp) text w = (Returns tt, w') ∧
    currentChatMessages (provider w') =
      currentChatMessages (provider w) ++ [userMsg; aiMsg] ∧
    m_text aiMsg = APOLOGY ∧ m_isUser aiMsg = false ∧
    toasts w' = toasts w ++ [LoadingShown (length (toasts w)) LOADING_TOAST;
                             ErrorShown ERROR_TOAST;
                             Dismissed (length (toasts w))].
Proof.
  intros Hsend Hok Hbody Hempty.
  destruct (handleSendMessage_spec oracle (Responds resp) text w Hsend)
    as (userMsg & aiMsg & w' & Hrun & Hmsgs & Htext & Huser & Hai & Hreply & HT & Hflag & Hacc).
  rewrite Hrun in Hempty. cbn [snd] in Hempty.
  assert (reply (Responds resp) = None) as Hr.
  { unfold reply. rewrite Hok, Hbody.
    rewrite <- (Hacc resp reads eq_refl Hok Hbody), Hempty.
    destruct (endsWell reads); reflexivity. }
  rewrite Hr in Hreply, HT. exists userMsg, aiMsg, w'.
  split_and!; [exact Hrun|exact Hmsgs|exact Hreply|exact Hai|exact HT].
Qed.

End Sends.

Lemma send_against_status_500_witness :
  ∃ userMsg aiMsg w',
    handleSendMessage exampleOracle (Responds (mkResponse 500 None))
      "write a hello world" freshWorld = (Returns tt, w') ∧
    currentChatMessages (provider w') =
      currentChatMessages (provider freshWorld) ++ [userMsg; aiMsg] ∧
    m_text userMsg = "write a hello world" ∧ m_isUser userMsg = true ∧
    m_text aiMsg = APOLOGY ∧ m_isUser aiMsg = false ∧
    isSendingMessage w' = false.
Proof.
  apply (send_against_status_500 exampleOracle "write a hello world" freshWorld
           (mkResponse 500 None)); reflexivity.
Defined.

Lemma streamed_hello_witness :
  ∃ userMsg aiMsg w',
    handleSendMessage exampleOracle
      (Responds (mkResponse 200 (Some (map Chunk (inTwoReads 1 helloLines)))))
      "say hello" freshWorld = (Returns tt, w') ∧
    currentChatMessages (provider w') =
      currentChatMessages (provider freshWorld) ++ [userMsg; aiMsg] ∧
    m_text userMsg = "say hello" ∧ m_isUser userMsg = true ∧
    m_text aiMsg = "Hello" ∧ m_isUser aiMsg = false.
Proof.
  apply (streamed_hello exampleOracle "say hello" freshWorld
           (mkResponse 200 (Some (map Chunk (inTwoReads 1 helloLines)))) 1); reflexivity.
Defined.

Lemma malformed_record_tolerated_witness :
  ∃ userMsg aiMsg w',
    handleSendMessage exampleOracle
      (Responds (mkResponse 200 (Some (map Chunk (inThreeReads 1 1 (tolerantLines false))))))
      "hi" freshWorld = (Returns tt, w') ∧
    currentChatMessages (provider w') =
      currentChatMessages (provider freshWorld) ++ [userMsg; aiMsg] ∧
    m_text aiMsg = "ok" ∧ m_isUser aiMsg = false ∧
    toasts w' = toasts freshWorld ++ [LoadingShown (length (toasts freshWorld)) LOADING_TOAST;
                                      Dismissed (length (toasts freshWorld))] ∧
    isSendingMessage w' = false.
Proof.
  apply (malformed_record_tolerated exampleOracle "hi" freshWorld
           (mkResponse 200 (Some (map Chunk (inThreeReads 1 1 (tolerantLines false)))))
           1 1 false); reflexivity.
Defined.

Lemma empty_accumulator_fails_witness :
  ∃ userMsg aiMsg w',
    handleSendMessage exampleOracle
      (Responds (mkResponse 200 (Some [Chunk (withNewline doneLine)])))
      "hi" freshWorld = (Returns tt, w') ∧
    currentChatMessages (provider w') =
      currentChatMessages (provider freshWorld) ++ [userMsg; aiMsg] ∧
    m_text aiMsg = APOLOGY ∧ m_isUser aiMsg = false ∧
    toasts w' = toasts freshWorld ++ [LoadingShown (length (toasts freshWorld)) LOADING_TOAST;
                                      ErrorShown ERROR_TOAST;
                                      Dismissed (length (toasts freshWorld))].
Proof.
  apply (empty_accumulator_fails exampleOracle "hi" freshWorld
           (mkResponse 200 (Some [Chunk (withNewline doneLine)]))
           [Chunk (withNewline doneLine)]); vm_compute; reflexivity.
Defined.

(** C1, on the code.  A stream delivers a content record and then an error
    record: the [throw] for the error record is caught by the [catch] around
    [JSON.parse], which only writes a warning; the send ends on the success
    path, with the content as the assistant's text and no error notified. *)
Theorem error_record_swallowed :
  let w' := snd (handleSendMessage exampleOracle contentThenError "hi" freshWorld) in
  fst (handleSendMessage exampleOracle contentThenError "hi" freshWorld) = Returns tt ∧
  m_text <$> last (currentChatMessages (provider w')) = Some "Hi" ∧
  toasts w' = [LoadingShown 0 LOADING_TOAST; Dismissed 0] ∧
  consoleLog w' =
    [ConsoleWarn ("Failed to parse chunk: " +:+ errorLine "boom")] ∧
  isSendingMessage w' = false.
Proof. vm_compute. repeat split. Qed.

(** * Frame properties of a send *)

Section Frames.

Variable oracle : Oracle.

(** A property of the provider that the two operations of a send keep. *)
Variable P : Provider → Prop.
Hypothesis P_add : ∀ text isUser mid ts upd st,
  P st → P (addMessageToCurrentChat text isUser mid ts upd st).
Hypothesis P_update : ∀ newText ts upd st,
  P st → P (updateLastAIMessage newText ts upd st).

Lemma processLine_frame line w :
  P (provider w) →
  ∃ stop w', processLine oracle line w = (Returns stop, w') ∧
             P (provider w') ∧ toasts w' = toasts w ∧
             isSendingMessage w' = isSendingMessage w.
Proof.
  intros HP. rewrite processLine_run.
  destruct (lineAction line) as [| |text stop|stop]; cbn [runAction].
  - by exists false, w.
  - eexists false, _. split; [reflexivity|]. done.
  - eexists stop, _. split; [reflexivity|]. split; [|done]. by apply P_update.
  - by exists stop, w.
Qed.

Lemma forLines_frame lines : ∀ w,
  P (provider w) →
  ∃ w', forLines oracle lines w = (Returns tt, w') ∧
        P (provider w') ∧ toasts w' = toasts w ∧
        isSendingMessage w' = isSendingMessage w.
Proof.
  induction lines as [|line lines IH]; intros w HP.
  - by exists w.
  - destruct (processLine_frame line w HP) as (stop & w1 & Hrun & HP1 & HT1 & Hf1).
    cbn [forLines]. unfold bind at 1. rewrite Hrun.
    destruct stop.
    + by exists w1.
    + destruct (IH w1 HP1) as (w' & Hrun' & HP' & HT' & Hf').
      exists w'. rewrite HT', Hf'. done.
Qed.

Lemma readLoop_frame reads : ∀ w,
  P (provider w) →
  ∃ r w', readLoop oracle reads w = (r, w') ∧
          P (provider w') ∧ toasts w' = toasts w ∧
          isSendingMessage w' = isSendingMessage w.
Proof.
  induction reads as [|[chunk|reason] reads IH]; intros w HP.
  - by exists (Returns tt), w.
  - destruct (forLines_frame (split NEWLINE chunk) w HP) as (w1 & Hrun & HP1 & HT1 & Hf1).
    destruct (IH w1 HP1) as (r & w' & Hrun' & HP' & HT' & Hf').
    exists r, w'. cbn [readLoop]. unfold bind at 1. rewrite Hrun, HT', Hf'. done.
  - by exists (Throws reason), w.
Qed.

Lemma callAddMessage_frame text isUser w :
  P (provider w) →
  ∃ w', callAddMessage oracle text isUser w = (Returns tt, w') ∧
        P (provider w') ∧ toasts w' = toasts w ∧
        isSendingMessage w' = isSendingMessage w.
Proof.
  intros HP. eexists. split; [reflexivity|]. split; [|done]. by apply P_add.
Qed.

Lemma tryBody_frame answer w :
  P (provider w) →
  ∃ r w', tryBody oracle answer w = (r, w') ∧
          P (provider w') ∧ toasts w' = toasts w ∧
          isSendingMessage w' = isSendingMessage w.
Proof.
  intros HP.
  destruct (callAddMessage_frame EmptyString false w HP) as (w1 & Hrun1 & HP1 & HT1 & Hf1).
  unfold tryBody. unfold bind at 1. rewrite Hrun1.
  destruct answer as [resp|reason]; [|by exists (Throws reason), w1].
  unfold bind at 1. cbn [ret]. unfold bind at 1.
  destruct (ok resp); cbn [negb throw ret]; [|by eexists _, w1].
  unfold bind at 1. cbn [setAccumulatedContent]. unfold bind at 1.
  destruct (body resp) as [reads|]; cbn [ret throw]; [|by eexists _, _].
  unfold bind at 1.
  match goal with |- context [readLoop oracle reads ?w2] =>
    destruct (readLoop_frame reads w2 HP1) as (r & w3 & Hrun3 & HP3 & HT3 & Hf3) end.
  rewrite Hrun3. cbn [toasts isSendingMessage] in HT3, Hf3.
  destruct r as [[]|reason]; [|by eexists _, w3; rewrite HT3, Hf3].
  unfold bind at 1. cbn [getAccumulatedContent].
  destruct (String.eqb _ _); eexists _, w3; rewrite HT3, Hf3; done.
Qed.

Lemma onError_frame error w :
  P (provider w) →
  ∃ w', onError oracle error w = (Returns tt, w') ∧ P (provider w') ∧
        toasts w' = toasts w ++ [ErrorShown ERROR_TOAST] ∧
        isSendingMessage w' = isSendingMessage w.
Proof.
  intros HP. eexists. split; [reflexivity|]. split; [|done]. by apply P_update.
Qed.

(** The outer [try], [catch] and [finally] around a body that keeps [P]. *)
Lemma guarded_frame (m : M unit) n w r w1 :
  m w = (r, w1) → P (provider w1) →
  ∃ w' errors,
    try_finally (try_catch m (onError oracle))
      (dismissToast n ;; setIsSendingMessage false) w = (Returns tt, w') ∧
    P (provider w') ∧ isSendingMessage w' = false ∧
    toasts w' = toasts w1 ++ errors ++ [Dismissed n] ∧
    (errors = [] ∨ errors = [ErrorShown ERROR_TOAST]).
Proof.
  intros Hrun HP. unfold try_finally, try_catch. rewrite Hrun.
  destruct r as [[]|reason].
  - exists (snd ((dismissToast n ;; setIsSendingMessage false) w1)), [].
    split; [reflexivity|]. split; [exact HP|]. split; [reflexivity|].
    split; [reflexivity|]. by left.
  - destruct (onError_frame reason w1 HP) as (w2 & Hrun2 & HP2 & HT2 & _).
    rewrite Hrun2.
    exists (snd ((dismissToast n ;; setIsSendingMessage false) w2)), [ErrorShown ERROR_TOAST].
    split; [reflexivity|]. split; [exact HP2|]. split; [reflexivity|].
    split; [|by right]. cbn. by rewrite HT2, <- app_assoc.
Qed.

(** Whatever the component's state and the answer of [fetch],
    [handleSendMessage] returns, with the flag down and the loading
    notification dismissed; at most one error is notified in between; and a
    property that the two operations keep and that holds once the user message
    is appended holds at the end. *)
Lemma handleSendMessage_frame answer text w :
  P (provider (snd (callAddMessage oracle text true w))) →
  ∃ w' errors,
    handleSendMessage oracle answer text w = (Returns tt, w') ∧
    P (provider w') ∧ isSendingMessage w' = false ∧
    toasts w' = toasts w ++ [LoadingShown (length (toasts w)) LOADING_TOAST] ++
                  errors ++ [Dismissed (length (toasts w))] ∧
    (errors = [] ∨ errors = [ErrorShown ERROR_TOAST]).
Proof.
  intros HP1.
  assert (∃ w1, callAddMessage oracle text true w = (Returns tt, w1) ∧
                toasts w1 = toasts w) as (w1 & Hrun1 & HT1)
    by (eexists; split; reflexivity).
  rewrite Hrun1 in HP1. cbn [snd] in HP1.
  unfold handleSendMessage. unfold bind at 1. rewrite Hrun1.
  unfold bind at 1. cbn [setIsSendingMessage]. unfold bind at 1.
  unfold showLoading at 1. unfold bind at 1.
  cbn [notify ret provider isSendingMessage toasts consoleLog accumulatedContent ticks].
  match goal with |- context [try_finally _ _ ?w3] =>
    destruct (tryBody_frame answer w3 HP1) as (r & w4 & Hrun4 & HP4 & HT4 & Hf4);
    destruct (guarded_frame (tryBody oracle answer) (length (toasts w1)) w3 r w4 Hrun4 HP4)
      as (w' & errors & Hrun & HP' & Hf & HT & Herrors)
  end.
  cbn [toasts] in HT4. rewrite HT4, HT1, <- app_assoc in HT.
  exists w', errors. split; [exact Hrun|]. split; [exact HP'|]. split; [exact Hf|].
  split; [exact HT|exact Herrors].
Qed.

End Frames.

(** * More on the history manager *)

Section ManagerMore.

Implicit Types (st : Provider) (session : ChatSession) (cur : string).

(** X1.  [startNewChat] puts a new session in front of the others, which it
    keeps as they are and in their order, and makes it current: the view is
    empty, the current id is that of a session of the list, and messages can
    be sent to it. *)
Theorem startNewChat_opens_empty_chat now st :
  chatSessions (startNewChat now st) = createNewChatSession now :: chatSessions st ∧
  currentSession (startNewChat now st) = Some (createNewChatSession now) ∧
  currentChatMessages (startNewChat now st) = [] ∧
  sendable (startNewChat now st) = true ∧
  isLoading (startNewChat now st) = isLoading st.
Proof.
  unfold currentChatMessages, currentSession, sendable, knownId, startNewChat. simpl.
  rewrite String.eqb_refl. done.
Qed.

Lemma find_unknown cur st :
  knownId cur st = false →
  List.find (λ session, String.eqb (s_id session) cur) (chatSessions st) = None.
Proof.
  unfold knownId. induction (chatSessions st) as [|x l IH]; simpl; [done|].
  destruct (String.eqb (s_id x) cur); [done|]. exact IH.
Qed.

(** X2.  Selecting an id that no session has is accepted: the sessions are
    untouched, the current id is the unknown one, and the view is empty. *)
Theorem select_unknown_shows_nothing sessionId st :
  knownId sessionId st = false →
  chatSessions (selectChatSession sessionId st) = chatSessions st ∧
  currentChatSessionId (selectChatSession sessionId st) = Some sessionId ∧
  currentChatMessages (selectChatSession sessionId st) = [].
Proof.
  intros Hno. split; [done|]. split; [done|].
  unfold currentChatMessages, currentSession, selectChatSession. simpl.
  by rewrite (find_unknown sessionId st Hno).
Qed.

(** X3.  Selecting the id of the session at position [i] shows the messages
    of the first session that has this id, which is the session at [i] itself
    when no session before it has the same id. *)
Theorem select_shows_session i session st :
  chatSessions st !! i = Some session →
  (∀ j other, j < i → chatSessions st !! j = Some other → s_id other ≠ s_id session) →
  currentSession (selectChatSession (s_id session) st) = Some session ∧
  currentChatMessages (selectChatSession (s_id session) st) = s_messages session.
Proof.
  intros Hi Hbefore.
  assert (currentSession (selectChatSession (s_id session) st) = Some session) as Hcur.
  { unfold currentSession, selectChatSession. simpl.
    revert i Hi Hbefore. induction (chatSessions st) as [|x l IH]; intros i Hi Hbefore.
    - by rewrite lookup_nil in Hi.
    - destruct i as [|i].
      + simpl in Hi. injection Hi as ->. simpl. by rewrite String.eqb_refl.
      + simpl. destruct (String.eqb_spec (s_id x) (s_id session)) as [Heq|_].
        * exfalso. apply (Hbefore 0 x); [lia|done|done].
        * apply (IH i Hi). intros j other Hj Hl. apply (Hbefore (S j) other); [lia|done]. }
  split; [done|]. unfold currentChatMessages. by rewrite Hcur.
Qed.

(** X4.  [addMessageToCurrentChat] only appends: it keeps the number and the
    order of the sessions, the current id and the loading flag, and for every
    session its id, its creation time and its messages, to which it adds at
    most one at the end. *)
Theorem addMessage_only_appends text isUser mid ts upd st i session :
  chatSessions st !! i = Some session →
  ∃ session',
    chatSessions (addMessageToCurrentChat text isUser mid ts upd st) !! i = Some session' ∧
    s_id session' = s_id session ∧ s_createdAt session' = s_createdAt session ∧
    (s_messages session' = s_messages session ∨
     s_messages session' = s_messages session ++
       [{| m_id := mid; m_text := text; m_isUser := isUser; m_timestamp := ts |}]) ∧
    length (chatSessions (addMessageToCurrentChat text isUser mid ts upd st))
      = length (chatSessions st) ∧
    currentChatSessionId (addMessageToCurrentChat text isUser mid ts upd st)
      = currentChatSessionId st ∧
    isLoading (addMessageToCurrentChat text isUser mid ts upd st) = isLoading st.
Proof.
  intros Hi. unfold addMessageToCurrentChat.
  destruct (currentChatSessionId st) as [cur|] eqn:Hcur;
    [|exists session; rewrite ?Hcur; split_and!; auto].
  destruct (String.eqb cur ""); [exists session; rewrite ?Hcur; split_and!; auto|].
  simpl. rewrite list_lookup_fmap, Hi, length_fmap. simpl.
  eexists. split; [reflexivity|]. unfold appendTo.
  destruct (String.eqb (s_id session) cur); simpl; split_and!; auto.
Qed.

Lemma others_kept st i session :
  chatSessions st !! i = Some session →
  isCurrent st session = false →
  ∀ text isUser mid ts upd newText ts' upd',
    chatSessions (addMessageToCurrentChat text isUser mid ts upd st) !! i = Some session ∧
    chatSessions (updateLastAIMessage newText ts' upd' st) !! i = Some session.
Proof.
  intros Hi Hother text isUser mid ts upd newText ts' upd'.
  unfold isCurrent in Hother.
  unfold addMessageToCurrentChat, updateLastAIMessage.
  destruct (currentChatSessionId st) as [cur|]; [|done].
  destruct (String.eqb cur ""); [done|].
  simpl. rewrite !list_lookup_fmap, Hi. simpl.
  unfold appendTo, patchLast. by rewrite Hother.
Qed.

(** X5.  A session that the current id does not designate is left as it is
    by [addMessageToCurrentChat] and by [updateLastAIMessage]. *)
Theorem other_sessions_untouched st i session :
  chatSessions st !! i = Some session →
  isCurrent st session = false →
  ∀ text isUser mid ts upd newText ts' upd',
    chatSessions (addMessageToCurrentChat text isUser mid ts upd st) !! i = Some session ∧
    chatSessions (updateLastAIMessage newText ts' upd' st) !! i = Some session.
Proof. apply others_kept. Qed.

(** X6.  With a current session, [addMessageToCurrentChat] shows the new
    message at the end of the view, after the messages that were there. *)
Theorem addMessage_shows_message text isUser mid ts upd st :
  sendable st = true →
  currentChatMessages (addMessageToCurrentChat text isUser mid ts upd st) =
    currentChatMessages st ++
      [{| m_id := mid; m_text := text; m_isUser := isUser; m_timestamp := ts |}] ∧
  sendable (addMessageToCurrentChat text isUser mid ts upd st) = true.
Proof.
  intros Hs. split; [by apply addMessage_currentChatMessages|].
  by rewrite addMessage_sendable.
Qed.

(** X7.  When the view ends with an assistant message,
    [updateLastAIMessage(newText)] replaces the text and the time stamp of
    that message and nothing else of the view: the messages before it, and the
    id and the author of the message, are kept. *)
Theorem updateLast_patches_last_message newText ts upd st msgs m :
  sendable st = true →
  currentChatMessages st = msgs ++ [m] →
  m_isUser m = false →
  currentChatMessages (updateLastAIMessage newText ts upd st) =
    msgs ++ [{| m_id := m_id m; m_text := newText; m_isUser := false; m_timestamp := ts |}].
Proof.
  intros Hs Hmsgs Hai.
  destruct (sendable_current st Hs) as (cur & Hcur & Hne).
  destruct (updateLast_awaiting cur msgs m newText ts upd st) as (_ & _ & Hview & _).
  { done. }
  by rewrite Hview, Hai.
Qed.

Lemma patchLast_twice cur t1 ts1 upd1 t2 ts2 upd2 session :
  patchLast cur t2 ts2 upd2 (patchLast cur t1 ts1 upd1 session) =
  patchLast cur t2 ts2 upd2 session.
Proof.
  unfold patchLast at 2.
  destruct (String.eqb (s_id session) cur) eqn:Hid; [|done].
  destruct (s_messages session) as [|m0 msgs _] eqn:Hm using rev_ind; [done|].
  rewrite length_app. simpl.
  replace (Z.to_nat (Z.of_nat (length msgs + 1) - 1)) with (length msgs + 0) by lia.
  destruct (0 <=? _)%Z eqn:Hle; [|apply Z.leb_gt in Hle; lia].
  rewrite lookup_app_r by lia.
  replace (length msgs + 0 - length msgs) with 0 by lia. simpl.
  destruct (m_isUser m0) eqn:Hai; [done|]. simpl.
  unfold patchLast. simpl. rewrite Hid, Hm.
  rewrite insert_app_r. simpl. rewrite !length_app. simpl.
  replace (Z.to_nat (Z.of_nat (length msgs + 1) - 1)) with (length msgs + 0) by lia.
  rewrite Hle. rewrite !lookup_app_r by lia.
  replace (length msgs + 0 - length msgs) with 0 by lia. simpl. rewrite Hai. simpl.
  by rewrite !insert_app_r.
Qed.

(** X8.  Of two [updateLastAIMessage] in a row only the second one shows: the
    state is the one that the second call alone gives. *)
Theorem updateLast_last_write_wins t1 ts1 upd1 t2 ts2 upd2 st :
  updateLastAIMessage t2 ts2 upd2 (updateLastAIMessage t1 ts1 upd1 st) =
  updateLastAIMessage t2 ts2 upd2 st.
Proof.
  unfold updateLastAIMessage.
  destruct (currentChatSessionId st) as [cur|] eqn:Hcur; simpl; rewrite ?Hcur; [|done].
  destruct (String.eqb cur "") eqn:Hne; simpl; rewrite ?Hcur, ?Hne; [done|].
  unfold setChatSessions. simpl. f_equal.
  rewrite <- list_fmap_compose. apply list_fmap_ext.
  intros i session _. simpl. apply patchLast_twice.
Qed.


(** X9.  [updateLastAIMessage] changes texts and times only: it keeps the
    number and the order of the sessions, the current id, and for every
    session its id, its title, its creation time, and the ids and the authors
    of its messages, hence their number. *)
Theorem updateLast_keeps_shape newText ts upd st i session :
  chatSessions st !! i = Some session →
  ∃ session',
    chatSessions (updateLastAIMessage newText ts upd st) !! i = Some session' ∧
    s_id session' = s_id session ∧ s_title session' = s_title session ∧
    s_createdAt session' = s_createdAt session ∧
    m_id <$> s_messages session' = m_id <$> s_messages session ∧
    m_isUser <$> s_messages session' = m_isUser <$> s_messages session ∧
    length (chatSessions (updateLastAIMessage newText ts upd st))
      = length (chatSessions st) ∧
    currentChatSessionId (updateLastAIMessage newText ts upd st)
      = currentChatSessionId st.
Proof.
  intros Hi. unfold updateLastAIMessage.
  destruct (currentChatSessionId st) as [cur|] eqn:Hcur;
    [|exists session; rewrite ?Hcur; split_and!; auto].
  destruct (String.eqb cur ""); [exists session; rewrite ?Hcur; split_and!; auto|].
  simpl. rewrite list_lookup_fmap, Hi, length_fmap. simpl.
  eexists. split; [reflexivity|]. unfold patchLast.
  destruct (String.eqb (s_id session) cur); [|split_and!; auto].
  destruct (0 <=? _)%Z; [|split_and!; auto].
  destruct (s_messages session !! _) as [m|] eqn:Hm; [|split_and!; auto].
  destruct (m_isUser m) eqn:Hai; simpl; [split_and!; auto|].
  rewrite !list_fmap_insert. simpl.
  rewrite !list_insert_id; [split_and!; auto|..];
    rewrite list_lookup_fmap, Hm; simpl; by rewrite ?Hai.
Qed.

Lemma substring_short n : ∀ s, String.length s ≤ n → String.substring 0 n s = s.
Proof.
  induction n as [|n IH]; intros [|c s] Hlen; simpl in *; try done; try lia.
  rewrite IH; [done|lia].
Qed.

Lemma substring_long n : ∀ s,
  n ≤ String.length s →
  String.length (String.substring 0 n s) = n ∧
  String.prefix (String.substring 0 n s) s = true.
Proof.
  induction n as [|n IH]; intros [|c s] Hlen; simpl in *; try done; try lia.
  destruct (IH s ltac:(lia)) as [Hl Hp]. rewrite Hl, Hp.
  split; [done|]. by destruct (Ascii.ascii_dec c c).
Qed.

(** X10.  The title made from a text: the text itself when it has at most 30
    characters; otherwise its first 30 characters followed by three dots, 33
    characters in all. *)
Theorem titleOf_bounds text :
  (String.length text ≤ 30 → titleOf text = text) ∧
  (30 < String.length text →
     ∃ head, titleOf text = head +:+ "..." ∧ String.length head = 30 ∧
             String.prefix head text = true) ∧
  String.length (titleOf text) ≤ 33.
Proof.
  unfold titleOf, substring_to.
  destruct (30 <? String.length text) eqn:Hlong.
  - apply Nat.ltb_lt in Hlong.
    destruct (substring_long 30 text ltac:(lia)) as [Hl Hp].
    split; [lia|]. split.
    + intros _. by eexists.
    + rewrite append_length, Hl. simpl. lia.
  - apply Nat.ltb_ge in Hlong.
    rewrite substring_short, append_nil_r by done.
    split; [done|]. split; [lia|]. lia.
Qed.

End ManagerMore.

Lemma select_unknown_shows_nothing_witness :
  chatSessions (selectChatSession "chat-404" freshProvider) = chatSessions freshProvider ∧
  currentChatSessionId (selectChatSession "chat-404" freshProvider) = Some "chat-404" ∧
  currentChatMessages (selectChatSession "chat-404" freshProvider) = [].
Proof. apply (select_unknown_shows_nothing "chat-404" freshProvider). reflexivity. Defined.

Lemma select_shows_session_witness :
  currentSession (selectChatSession "chat-0" (startNewChat 5 twoMessages))
    = currentSession twoMessages ∧
  currentChatMessages (selectChatSession "chat-0" (startNewChat 5 twoMessages))
    = currentChatMessages twoMessages.
Proof.
  destruct (select_shows_session 1
              {| s_id := "chat-0"; s_title := "hi";
                 s_messages := currentChatMessages twoMessages;
                 s_createdAt := 0; s_updatedAt := 4 |}
              (startNewChat 5 twoMessages)) as [Hs Hm].
  - reflexivity.
  - intros [|j] other Hj Hl; [|lia]. injection Hl as <-. discriminate.
  - split; [exact Hs|exact Hm].
Defined.

Lemma addMessage_only_appends_witness :
  ∃ session',
    chatSessions (addMessageToCurrentChat "more" true "msg-9-zzzzzzz" 9 9 twoMessages) !! 0
      = Some session' ∧
    s_id session' = "chat-0" ∧ s_createdAt session' = 0%Z ∧
    (s_messages session' = currentChatMessages twoMessages ∨
     s_messages session' = currentChatMessages twoMessages ++
       [{| m_id := "msg-9-zzzzzzz"; m_text := "more"; m_isUser := true;
           m_timestamp := 9 |}]) ∧
    length (chatSessions (addMessageToCurrentChat "more" true "msg-9-zzzzzzz" 9 9 twoMessages))
      = 1 ∧
    currentChatSessionId (addMessageToCurrentChat "more" true "msg-9-zzzzzzz" 9 9 twoMessages)
      = Some "chat-0" ∧
    isLoading (addMessageToCurrentChat "more" true "msg-9-zzzzzzz" 9 9 twoMessages) = false.
Proof.
  apply (addMessage_only_appends "more" true "msg-9-zzzzzzz" 9 9 twoMessages 0
           {| s_id := "chat-0"; s_title := "hi";
              s_messages := currentChatMessages twoMessages;
              s_createdAt := 0; s_updatedAt := 4 |}).
  reflexivity.
Defined.

Lemma other_sessions_untouched_witness :
  chatSessions (addMessageToCurrentChat "more" true "msg-9-zzzzzzz" 9 9
                  (startNewChat 5 twoMessages)) !! 1
    = chatSessions twoMessages !! 0 ∧
  chatSessions (updateLastAIMessage "later" 9 9 (startNewChat 5 twoMessages)) !! 1
    = chatSessions twoMessages !! 0.
Proof.
  apply (other_sessions_untouched (startNewChat 5 twoMessages) 1
           {| s_id := "chat-0"; s_title := "hi";
              s_messages := currentChatMessages twoMessages;
              s_createdAt := 0; s_updatedAt := 4 |}); reflexivity.
Defined.

Lemma addMessage_shows_message_witness :
  currentChatMessages (addMessageToCurrentChat "hi" true "msg-1-aaaaaaa" 1 2 freshProvider)
    = currentChatMessages freshProvider ++
        [{| m_id := "msg-1-aaaaaaa"; m_text := "hi"; m_isUser := true; m_timestamp := 1 |}] ∧
  sendable (addMessageToCurrentChat "hi" true "msg-1-aaaaaaa" 1 2 freshProvider) = true.
Proof.
  apply (addMessage_shows_message "hi" true "msg-1-aaaaaaa" 1 2 freshProvider). reflexivity.
Defined.

Lemma updateLast_patches_last_message_witness :
  currentChatMessages (updateLastAIMessage "Hel" 7 8 twoMessages) =
    [{| m_id := "msg-1-aaaaaaa"; m_text := "hi"; m_isUser := true; m_timestamp := 1 |}] ++
    [{| m_id := "msg-3-bbbbbbb"; m_text := "Hel"; m_isUser := false; m_timestamp := 7 |}].
Proof.
  apply (updateLast_patches_last_message "Hel" 7 8 twoMessages
           [{| m_id := "msg-1-aaaaaaa"; m_text := "hi"; m_isUser := true; m_timestamp := 1 |}]
           {| m_id := "msg-3-bbbbbbb"; m_text := EmptyString; m_isUser := false;
              m_timestamp := 3 |}); reflexivity.
Defined.

Lemma updateLast_keeps_shape_witness :
  ∃ session',
    chatSessions (updateLastAIMessage "Hel" 7 8 twoMessages) !! 0 = Some session' ∧
    s_id session' = "chat-0" ∧ s_title session' = "hi" ∧ s_createdAt session' = 0%Z ∧
    m_id <$> s_messages session' = ["msg-1-aaaaaaa"; "msg-3-bbbbbbb"] ∧
    m_isUser <$> s_messages session' = [true; false] ∧
    length (chatSessions (updateLastAIMessage "Hel" 7 8 twoMessages)) = 1 ∧
    currentChatSessionId (updateLastAIMessage "Hel" 7 8 twoMessages) = Some "chat-0".
Proof.
  apply (updateLast_keeps_shape "Hel" 7 8 twoMessages 0
           {| s_id := "chat-0"; s_title := "hi";
              s_messages := currentChatMessages twoMessages;
              s_createdAt := 0; s_updatedAt := 4 |}).
  reflexivity.
Defined.

(** * More on the store adapter *)

Section StoreMore.

Implicit Types (b : Browser) (history : list ChatSession).

Lemma load_without_history b :
  hasWindow b = false ∨
  getItem CHAT_HISTORY_KEY b = None ∨
  (∃ text, getItem CHAT_HISTORY_KEY b = Some text ∧ JSON_parse text = None) →
  fst (loadChatHistory b) = Sessions [] ∧
  localStorage (snd (loadChatHistory b)) = localStorage b.
Proof.
  unfold loadChatHistory.
  intros [Hwin|[Hnone|(text & Hsome & Hbad)]].
  - by rewrite Hwin.
  - rewrite Hnone. by destruct (negb (hasWindow b)).
  - rewrite Hsome, Hbad.
    destruct (negb (hasWindow b)); [done|]. by destruct (String.eqb text "").
Qed.

(** X11.  [loadChatHistory] never fails and never writes: without a
    [window], without an entry under the key, or with an entry that is not
    JSON, it returns the empty history and leaves the store as it is. *)
Theorem load_degrades_to_empty b :
  hasWindow b = false ∨
  getItem CHAT_HISTORY_KEY b = None ∨
  (∃ text, getItem CHAT_HISTORY_KEY b = Some text ∧ JSON_parse text = None) →
  fst (loadChatHistory b) = Sessions [] ∧
  localStorage (snd (loadChatHistory b)) = localStorage b.
Proof. exact (load_without_history b). Qed.

(** X12.  When [setItem] throws, [saveChatHistory] returns all the same: the
    store keeps what it held, one error is written to the console, and a
    later [loadChatHistory] finds what it would have found before. *)
Theorem failed_save_keeps_store history b :
  hasWindow b = true →
  quota b < String.length (JSON_stringify (history_to_json history)) →
  localStorage (saveChatHistory history b) = localStorage b ∧
  console (saveChatHistory history b) =
    console b ++ [ConsoleError "Failed to save chat history to localStorage:"] ∧
  fst (loadChatHistory (saveChatHistory history b)) = fst (loadChatHistory b).
Proof.
  intros Hwin Hquota. unfold saveChatHistory, setItem. rewrite Hwin. cbn [negb].
  apply Nat.leb_gt in Hquota. rewrite Hquota.
  split; [done|]. split; [done|].
  unfold loadChatHistory, getItem, log. cbn [hasWindow localStorage].
  destruct (negb (hasWindow b)); [done|].
  destruct (localStorage b !! CHAT_HISTORY_KEY) as [text|]; [|done].
  destruct (String.eqb text ""); [done|]. by destruct (JSON_parse text).
Qed.

Lemma load_saved history b :
  hasWindow b = true →
  String.length (JSON_stringify (history_to_json history)) ≤ quota b →
  loadChatHistory (saveChatHistory history b) =
    (Sessions history, saveChatHistory history b) ∧
  hasWindow (saveChatHistory history b) = true ∧
  quota (saveChatHistory history b) = quota b.
Proof.
  intros Hwin Hquota. unfold saveChatHistory, setItem. rewrite Hwin. cbn [negb].
  apply Nat.leb_le in Hquota. rewrite Hquota.
  unfold loadChatHistory, getItem. cbn [hasWindow localStorage negb quota].
  rewrite lookup_insert_eq, stringify_history_nonempty.
  rewrite JSON_parse_stringify by apply distinct_keys_history.
  by rewrite asSessions_history.
Qed.

(** X13.  The last save wins: after [saveChatHistory(first)] and then
    [saveChatHistory(second)], both fitting the quota, [loadChatHistory]
    returns [second]. *)
Theorem last_save_wins first second b :
  hasWindow b = true →
  String.length (JSON_stringify (history_to_json first)) ≤ quota b →
  String.length (JSON_stringify (history_to_json second)) ≤ quota b →
  fst (loadChatHistory (saveChatHistory second (saveChatHistory first b))) = Sessions second.
Proof.
  intros Hwin Hfirst Hsecond.
  destruct (load_saved first b Hwin Hfirst) as (_ & Hwin' & Hquota').
  destruct (load_saved second (saveChatHistory first b) Hwin') as (Hload & _).
  { by rewrite Hquota'. }
  by rewrite Hload.
Qed.

(** X14.  A reload restores the sessions: when the provider has finished
    loading and its persistence effect has saved its sessions, the mount
    effect of a new provider on that store ends with the same sessions, not
    loading, and with the FIRST session as the current one (which session was
    current is not stored). *)
Theorem reload_restores_sessions st b now first others :
  isLoading st = false →
  chatSessions st = first :: others →
  hasWindow b = true →
  String.length (JSON_stringify (history_to_json (chatSessions st))) ≤ quota b →
  ∃ st' b',
    mountEffect now (persist st b) initialProvider = Some (st', b') ∧
    chatSessions st' = chatSessions st ∧
    currentChatSessionId st' = Some (s_id first) ∧
    isLoading st' = false.
Proof.
  intros Hloaded Hsessions Hwin Hquota.
  unfold mountEffect, persist. rewrite Hloaded.
  destruct (load_saved (chatSessions st) b Hwin Hquota) as (Hload & _).
  rewrite Hload. eexists _, _. split; [reflexivity|].
  rewrite Hsessions. done.
Qed.

(** X15.  On a store without history (no entry, no [window], or an entry that
    is not JSON) the mount effect ends with exactly one session, the new one,
    which is empty and current. *)
Theorem mount_on_empty_store b now :
  hasWindow b = false ∨
  getItem CHAT_HISTORY_KEY b = None ∨
  (∃ text, getItem CHAT_HISTORY_KEY b = Some text ∧ JSON_parse text = None) →
  ∃ st' b',
    mountEffect now b initialProvider = Some (st', b') ∧
    chatSessions st' = [createNewChatSession now] ∧
    currentSession st' = Some (createNewChatSession now) ∧
    currentChatMessages st' = [] ∧
    isLoading st' = false.
Proof.
  intros Hempty. destruct (load_without_history b Hempty) as [Hload _].
  unfold mountEffect. destruct (loadChatHistory b) as [loaded b'].
  simpl in Hload. subst loaded. eexists _, _. split; [reflexivity|].
  unfold currentChatMessages, currentSession. simpl. by rewrite String.eqb_refl.
Qed.

End StoreMore.

Lemma load_degrades_to_empty_witness :
  fst (loadChatHistory corruptBrowser) = Sessions [] ∧
  localStorage (snd (loadChatHistory corruptBrowser)) = localStorage corruptBrowser.
Proof.
  apply (load_degrades_to_empty corruptBrowser).
  right. right. exists "[{not json". split; reflexivity.
Defined.

Lemma failed_save_keeps_store_witness :
  localStorage (saveChatHistory exampleHistory fullBrowser) = localStorage fullBrowser ∧
  console (saveChatHistory exampleHistory fullBrowser) =
    console fullBrowser ++ [ConsoleError "Failed to save chat history to localStorage:"] ∧
  fst (loadChatHistory (saveChatHistory exampleHistory fullBrowser))
    = fst (loadChatHistory fullBrowser).
Proof.
  apply (failed_save_keeps_store exampleHistory fullBrowser);
    [reflexivity | apply Nat.ltb_lt; vm_compute; reflexivity].
Defined.

Lemma last_save_wins_witness :
  fst (loadChatHistory (saveChatHistory exampleHistory (saveChatHistory [] exampleBrowser)))
    = Sessions exampleHistory.
Proof.
  apply (last_save_wins [] exampleHistory exampleBrowser);
    [reflexivity | apply Nat.leb_le; vm_compute; reflexivity
                 | apply Nat.leb_le; vm_compute; reflexivity].
Defined.

Lemma reload_restores_sessions_witness :
  ∃ st' b',
    mountEffect 99 (persist (startNewChat 5 twoMessages) exampleBrowser) initialProvider
      = Some (st', b') ∧
    chatSessions st' = chatSessions (startNewChat 5 twoMessages) ∧
    currentChatSessionId st' = Some (s_id (createNewChatSession 5)) ∧
    isLoading st' = false.
Proof.
  apply (reload_restores_sessions (startNewChat 5 twoMessages) exampleBrowser 99
           (createNewChatSession 5) (chatSessions twoMessages));
    [reflexivity | reflexivity | reflexivity | apply Nat.leb_le; vm_compute; reflexivity].
Defined.

Lemma mount_on_empty_store_witness :
  ∃ st' b',
    mountEffect 7 corruptBrowser initialProvider = Some (st', b') ∧
    chatSessions st' = [createNewChatSession 7] ∧
    currentSession st' = Some (createNewChatSession 7) ∧
    currentChatMessages st' = [] ∧
    isLoading st' = false.
Proof.
  apply (mount_on_empty_store corruptBrowser 7).
  right. right. exists "[{not json". split; reflexivity.
Defined.

(** * More on [handleSendMessage] *)

Section SendsMore.

Variable oracle : Oracle.

Implicit Types (st : Provider) (w : World).

Lemma addMessage_ids text isUser mid ts upd st :
  s_id <$> chatSessions (addMessageToCurrentChat text isUser mid ts upd st)
    = s_id <$> chatSessions st ∧
  isLoading (addMessageToCurrentChat text isUser mid ts upd st) = isLoading st.
Proof.
  unfold addMessageToCurrentChat.
  destruct (currentChatSessionId st) as [cur|]; [|done].
  destruct (String.eqb cur ""); [done|]. simpl. split; [|done].
  rewrite <- list_fmap_compose. apply list_fmap_ext. intros i x _. apply appendTo_id.
Qed.

Lemma updateLast_ids newText ts upd st :
  s_id <$> chatSessions (updateLastAIMessage newText ts upd st)
    = s_id <$> chatSessions st ∧
  isLoading (updateLastAIMessage newText ts upd st) = isLoading st.
Proof.
  unfold updateLastAIMessage.
  destruct (currentChatSessionId st) as [cur|]; [|done].
  destruct (String.eqb cur ""); [done|]. simpl. split; [|done].
  rewrite <- list_fmap_compose. apply list_fmap_ext. intros i x _. apply patchLast_id.
Qed.

(** X16.  Whatever the state of the component and whatever [fetch] answers,
    [handleSendMessage] returns without raising, with the sending flag false;
    it shows the loading notification, then at most one error notification,
    then dismisses the loading one; and it changes neither the current id, nor
    the ids and the order of the sessions, nor the loading flag of the
    provider. *)
Theorem send_always_settles answer text w :
  ∃ w' errors,
    handleSendMessage oracle answer text w = (Returns tt, w') ∧
    isSendingMessage w' = false ∧
    toasts w' = toasts w ++ [LoadingShown (length (toasts w)) LOADING_TOAST] ++
                  errors ++ [Dismissed (length (toasts w))] ∧
    (errors = [] ∨ errors = [ErrorShown ERROR_TOAST]) ∧
    currentChatSessionId (provider w') = currentChatSessionId (provider w) ∧
    s_id <$> chatSessions (provider w') = s_id <$> chatSessions (provider w) ∧
    isLoading (provider w') = isLoading (provider w).
Proof.
  set (P := λ st, currentChatSessionId st = currentChatSessionId (provider w) ∧
                  s_id <$> chatSessions st = s_id <$> chatSessions (provider w) ∧
                  isLoading st = isLoading (provider w)).
  assert (∀ t u mid ts upd st, P st → P (addMessageToCurrentChat t u mid ts upd st)) as Hadd.
  { intros t u mid ts upd st (Hc & Hi & Hl).
    destruct (addMessage_ids t u mid ts upd st) as [Hi' Hl'].
    unfold P. by rewrite addMessage_current, Hi', Hl'. }
  assert (∀ t ts upd st, P st → P (updateLastAIMessage t ts upd st)) as Hupd.
  { intros t ts upd st (Hc & Hi & Hl).
    destruct (updateLast_ids t ts upd st) as [Hi' Hl'].
    unfold P. by rewrite updateLast_current, Hi', Hl'. }
  destruct (handleSendMessage_frame oracle P Hadd Hupd answer text w)
    as (w' & errors & Hrun & (Hcur & Hids & Hload) & Hflag & HT & Herrors).
  { apply Hadd. by unfold P. }
  exists w', errors. split_and!; assumption.
Qed.


(** X17.  A send leaves every session that the current id does not designate
    as it is, whatever [fetch] answers. *)
Theorem send_leaves_other_sessions answer text w i session :
  chatSessions (provider w) !! i = Some session →
  isCurrent (provider w) session = false →
  chatSessions (provider (snd (handleSendMessage oracle answer text w))) !! i = Some session.
Proof.
  intros Hi Hother.
  set (P := λ st, chatSessions st !! i = Some session ∧
                  currentChatSessionId st = currentChatSessionId (provider w)).
  assert (∀ st, P st → isCurrent st session = false) as Hkeep.
  { intros st [_ Hc]. unfold isCurrent in *. by rewrite Hc. }
  assert (∀ t u mid ts upd st, P st → P (addMessageToCurrentChat t u mid ts upd st)) as Hadd.
  { intros t u mid ts upd st HP. pose proof HP as [Hl Hc].
    destruct (others_kept st i session Hl (Hkeep st HP) t u mid ts upd t ts upd) as [Ha _].
    unfold P. by rewrite addMessage_current. }
  assert (∀ t ts upd st, P st → P (updateLastAIMessage t ts upd st)) as Hupd.
  { intros t ts upd st HP. pose proof HP as [Hl Hc].
    destruct (others_kept st i session Hl (Hkeep st HP) t true t ts upd t ts upd) as [_ Hu].
    unfold P. by rewrite updateLast_current. }
  destruct (handleSendMessage_frame oracle P Hadd Hupd answer text w)
    as (w' & errors & Hrun & [Hl _] & _).
  { apply Hadd. by unfold P. }
  by rewrite Hrun.
Qed.

Lemma not_sendable_noop st :
  sendable st = false →
  ∀ text isUser mid ts upd,
    addMessageToCurrentChat text isUser mid ts upd st = st ∧
    updateLastAIMessage text ts upd st = st.
Proof.
  unfold sendable, addMessageToCurrentChat, updateLastAIMessage.
  intros Hs text isUser mid ts upd.
  destruct (currentChatSessionId st) as [cur|] eqn:Hcur; [|done].
  destruct (String.eqb cur ""); [done|]. simpl in Hs.
  pose proof (knownId_false st cur Hs) as Hne.
  split; (rewrite fmap_id_on; [apply setChatSessions_same|]);
    intros session Hin; unfold appendTo, patchLast; by rewrite (Hne session Hin).
Qed.

(** X18.  Without a current session (no current id, the empty string as
    current id, or a current id that no session has), a send leaves the
    provider as it is, whatever [fetch] answers: the user's text and the reply
    are stored nowhere. *)
Theorem send_without_current_session answer text w :
  sendable (provider w) = false →
  provider (snd (handleSendMessage oracle answer text w)) = provider w.
Proof.
  intros Hs.
  set (P := λ st, st = provider w).
  assert (∀ t u mid ts upd st, P st → P (addMessageToCurrentChat t u mid ts upd st)) as Hadd.
  { intros t u mid ts upd st ->. by destruct (not_sendable_noop _ Hs t u mid ts upd). }
  assert (∀ t ts upd st, P st → P (updateLastAIMessage t ts upd st)) as Hupd.
  { intros t ts upd st ->. by destruct (not_sendable_noop _ Hs t true t ts upd). }
  destruct (handleSendMessage_frame oracle P Hadd Hupd answer text w)
    as (w' & errors & Hrun & HP & _).
  { apply Hadd. by unfold P. }
  by rewrite Hrun.
Qed.

(** The failure path, as [handleSendMessage_spec] gives it. *)
Lemma failure_path answer text w :
  sendable (provider w) = true →
  reply answer = None →
  ∃ userMsg aiMsg w',
    handleSendMessage oracle answer text w = (Returns tt, w') ∧
    currentChatMessages (provider w') =
      currentChatMessages (provider w) ++ [userMsg; aiMsg] ∧
    m_text userMsg = text ∧ m_isUser userMsg = true ∧
    m_text aiMsg = APOLOGY ∧ m_isUser aiMsg = false ∧
    toasts w' = toasts w ++ [LoadingShown (length (toasts w)) LOADING_TOAST;
                             ErrorShown ERROR_TOAST;
                             Dismissed (length (toasts w))] ∧
    isSendingMessage w' = false.
Proof.
  intros Hsend Hr.
  destruct (handleSendMessage_spec oracle answer text w Hsend)
    as (userMsg & aiMsg & w' & Hrun & Hmsgs & Htext & Huser & Hai & Hreply & HT & Hflag & _).
  rewrite Hr in Hreply, HT. exists userMsg, aiMsg, w'.
  split_and!; assumption.
Qed.

(** X19.  When [fetch] rejects, or answers with a status outside 200..299, or
    with a response that has no body to read, the send takes the failure
    path: the view shows the user message and then the apology, one error is
    notified between the loading notification and its dismissal, and the
    sending flag is false. *)
Theorem transport_failure_apologises answer text w :
  sendable (provider w) = true →
  (∃ reason, answer = Rejects reason) ∨
  (∃ resp, answer = Responds resp ∧ (ok resp = false ∨ body resp = None)) →
  ∃ userMsg aiMsg w',
    handleSendMessage oracle answer text w = (Returns tt, w') ∧
    currentChatMessages (provider w') =
      currentChatMessages (provider w) ++ [userMsg; aiMsg] ∧
    m_text userMsg = text ∧ m_isUser userMsg = true ∧
    m_text aiMsg = APOLOGY ∧ m_isUser aiMsg = false ∧
    toasts w' = toasts w ++ [LoadingShown (length (toasts w)) LOADING_TOAST;
                             ErrorShown ERROR_TOAST;
                             Dismissed (length (toasts w))] ∧
    isSendingMessage w' = false.
Proof.
  intros Hsend Hfail. apply failure_path; [done|].
  destruct Hfail as [[reason ->]|(resp & -> & [Hok|Hbody])]; [done|..]; unfold reply.
  - by rewrite Hok.
  - rewrite Hbody. by destruct (ok resp).
Qed.

Lemma endsWell_failure before reason after :
  endsWell (before ++ ReadFails reason :: after) = false.
Proof.
  unfold endsWell. rewrite forallb_app. simpl. by rewrite andb_false_r.
Qed.

(** X20.  When a read of the stream fails, the send takes the failure path
    whatever the reads before it delivered: the text accumulated so far is
    replaced by the apology. *)
Theorem read_failure_discards_partial_text text w resp before reason after :
  sendable (provider w) = true →
  ok resp = true →
  body resp = Some (before ++ ReadFails reason :: after) →
  ∃ userMsg aiMsg w',
    handleSendMessage oracle (Responds resp) text w = (Returns tt, w') ∧
    currentChatMessages (provider w') =
      currentChatMessages (provider w) ++ [userMsg; aiMsg] ∧
    m_text userMsg = text ∧ m_isUser userMsg = true ∧
    m_text aiMsg = APOLOGY ∧ m_isUser aiMsg = false ∧
    toasts w' = toasts w ++ [LoadingShown (length (toasts w)) LOADING_TOAST;
                             ErrorShown ERROR_TOAST;
                             Dismissed (length (toasts w))] ∧
    isSendingMessage w' = false.
Proof.
  intros Hsend Hok Hbody. apply failure_path; [done|].
  unfold reply. by rewrite Hok, Hbody, endsWell_failure.
Qed.


Lemma delivered_app reads1 reads2 :
  endsWell reads1 = true →
  delivered (reads1 ++ reads2) = delivered reads1 ++ delivered reads2.
Proof.
  induction reads1 as [|[chunk|reason] reads1 IH]; intros Hwell; [done| |done].
  simpl in *. by rewrite IH, app_assoc.
Qed.

(** X21.  The reads of a stream accumulate: what a send has accumulated at
    the end of a stream made of a first run of reads, none of which fails,
    followed by a second run, is what it accumulates on the first run followed
    by what it accumulates on the second.  In particular a [done] record in an
    earlier read does not stop the reading of the later ones. *)
Theorem reads_accumulate text w reads1 reads2 :
  sendable (provider w) = true →
  endsWell reads1 = true →
  accumulatedContent (snd (handleSendMessage oracle (readsOf (reads1 ++ reads2)) text w)) =
    accumulatedContent (snd (handleSendMessage oracle (readsOf reads1) text w)) +:+
    accumulatedContent (snd (handleSendMessage oracle (readsOf reads2) text w)).
Proof.
  intros Hsend Hwell.
  assert (∀ reads,
            accumulatedContent (snd (handleSendMessage oracle (readsOf reads) text w))
              = concatenation (delivered reads)) as Hacc.
  { intros reads.
    destruct (handleSendMessage_spec oracle (readsOf reads) text w Hsend)
      as (_ & _ & w' & Hrun & _ & _ & _ & _ & _ & _ & _ & Hacc).
    rewrite Hrun. apply (Hacc _ reads eq_refl); reflexivity. }
  by rewrite !Hacc, delivered_app, concatenation_app.
Qed.

(** X22.  The [break] of the loop over the lines: after a line on which the
    loop body breaks, the other lines of the chunk are not processed. *)
Theorem lines_after_break_skipped line before after w :
  (∀ w0, fst (processLine oracle line w0) = Returns true) →
  forLines oracle (before ++ line :: after) w = forLines oracle (before ++ [line]) w.
Proof.
  intros Hbreak. revert w.
  induction before as [|l before IH]; intros w; cbn [app forLines]; unfold bind.
  - specialize (Hbreak w). destruct (processLine oracle line w) as [r w1].
    simpl in Hbreak. by rewrite Hbreak.
  - destruct (processLine oracle l w) as [[[]|reason] w1]; [done| |done].
    apply IH.
Qed.

Lemma deliveredByLines_no_data lines :
  forallb (λ line, negb (startsWith "data: " line)) lines = true →
  deliveredByLines lines = [].
Proof.
  induction lines as [|line lines IH]; [done|].
  simpl. intros [Hline Hrest]%andb_true_iff.
  unfold lineAction. apply negb_true_iff in Hline. rewrite Hline. by apply IH.
Qed.

Lemma delivered_no_data chunks :
  noDataLines chunks = true →
  delivered (map Chunk chunks) = [] ∧ endsWell (map Chunk chunks) = true.
Proof.
  induction chunks as [|chunk chunks IH]; [done|].
  simpl. intros [Hchunk Hrest]%andb_true_iff.
  destruct (IH Hrest) as [Hd Hw].
  by rewrite (deliveredByLines_no_data _ Hchunk), Hd.
Qed.

(** X23.  A stream in which no line starts with [data: ] (blank lines,
    comments, other fields of an event stream) delivers nothing: the request
    has succeeded, and the send takes the failure path all the same. *)
Theorem stream_without_data_lines_fails text w resp chunks :
  sendable (provider w) = true →
  ok resp = true →
  body resp = Some (map Chunk chunks) →
  noDataLines chunks = true →
  ∃ userMsg aiMsg w',
    handleSendMessage oracle (Responds resp) text w = (Returns tt, w') ∧
    currentChatMessages (provider w') =
      currentChatMessages (provider w) ++ [userMsg; aiMsg] ∧
    m_text userMsg = text ∧ m_isUser userMsg = true ∧
    m_text aiMsg = APOLOGY ∧ m_isUser aiMsg = false ∧
    toasts w' = toasts w ++ [LoadingShown (length (toasts w)) LOADING_TOAST;
                             ErrorShown ERROR_TOAST;
                             Dismissed (length (toasts w))] ∧
    isSendingMessage w' = false.
Proof.
  intros Hsend Hok Hbody Hnone. apply failure_path; [done|].
  destruct (delivered_no_data chunks Hnone) as [Hd Hw].
  unfold reply. by rewrite Hok, Hbody, Hw, Hd.
Qed.

Lemma currentSession_add text isUser mid ts upd st :
  sendable st = true →
  ∃ cur session,
    currentSession st = Some session ∧
    currentSession (addMessageToCurrentChat text isUser mid ts upd st) =
      Some (appendTo cur {| m_id := mid; m_text := text; m_isUser := isUser;
                            m_timestamp := ts |} text isUser upd session) ∧
    s_id session = cur.
Proof.
  unfold sendable, currentSession, addMessageToCurrentChat.
  destruct (currentChatSessionId st) as [cur|] eqn:Hcur; [|done].
  intros [Hne Hknown]%andb_true_iff. apply negb_true_iff in Hne. rewrite Hne.
  simpl. rewrite Hcur.
  rewrite find_fmap_same_id by (intros; apply appendTo_id).
  destruct (find_known cur st Hknown) as (session & -> & Hid).
  by exists cur, session.
Qed.

Lemma patchLast_title cur newText ts upd session :
  s_title (patchLast cur newText ts upd session) = s_title session ∧
  (s_messages session ≠ [] → s_messages (patchLast cur newText ts upd session) ≠ []).
Proof.
  unfold patchLast. destruct (String.eqb _ _); [|done].
  destruct (if (0 <=? _)%Z then _ else _) as [m|]; [|done].
  destruct (negb _); [|done]. simpl. split; [done|].
  intros Hne Hnil. apply Hne. apply (f_equal length) in Hnil.
  rewrite length_insert in Hnil. by destruct (s_messages session).
Qed.

Lemma appendTo_title cur m text isUser upd session :
  s_messages session ≠ [] →
  s_title (appendTo cur m text isUser upd session) = s_title session ∧
  s_messages (appendTo cur m text isUser upd session) ≠ [].
Proof.
  intros Hne. unfold appendTo. destruct (String.eqb _ _); [|done]. simpl.
  destruct (s_messages session); [done|]. done.
Qed.

(** The current session has the title [T] and is not empty. *)
Lemma titled_add T text isUser mid ts upd st :
  (∃ s, currentSession st = Some s ∧ s_title s = T ∧ s_messages s ≠ []) →
  ∃ s, currentSession (addMessageToCurrentChat text isUser mid ts upd st) = Some s ∧
       s_title s = T ∧ s_messages s ≠ [].
Proof.
  intros (s & Hs & HT & Hne).
  unfold currentSession, addMessageToCurrentChat in *.
  destruct (currentChatSessionId st) as [cur|] eqn:Hcur; [|done].
  destruct (String.eqb cur ""); [rewrite Hcur; by exists s|].
  simpl. rewrite Hcur.
  rewrite find_fmap_same_id by (intros; apply appendTo_id). rewrite Hs. simpl.
  eexists. split; [reflexivity|].
  match goal with |- context [appendTo ?c ?m ?t ?u ?d s] =>
    destruct (appendTo_title c m t u d s Hne) as [Ht Hm] end.
  by rewrite Ht.
Qed.

Lemma titled_update T newText ts upd st :
  (∃ s, currentSession st = Some s ∧ s_title s = T ∧ s_messages s ≠ []) →
  ∃ s, currentSession (updateLastAIMessage newText ts upd st) = Some s ∧
       s_title s = T ∧ s_messages s ≠ [].
Proof.
  intros (s & Hs & HT & Hne).
  unfold currentSession, updateLastAIMessage in *.
  destruct (currentChatSessionId st) as [cur|] eqn:Hcur; [|done].
  destruct (String.eqb cur ""); [rewrite Hcur; by exists s|].
  simpl. rewrite Hcur.
  rewrite find_fmap_same_id by (intros; apply patchLast_id). rewrite Hs. simpl.
  eexists. split; [reflexivity|].
  destruct (patchLast_title cur newText ts upd s) as [Ht Hm].
  rewrite Ht. auto.
Qed.

(** X24.  The title after a send.  With a current session, the current
    session has after the send the title made from the text of the send when
    it had no message before, and the title it had otherwise, whatever
    [fetch] answers. *)
Theorem send_titles_empty_session answer text w :
  sendable (provider w) = true →
  ∃ before after,
    currentSession (provider w) = Some before ∧
    currentSession (provider (snd (handleSendMessage oracle answer text w))) = Some after ∧
    s_title after =
      match s_messages before with
      | [] => titleOf text
      | _ :: _ => s_title before
      end.
Proof.
  intros Hsend.
  destruct (callAddMessage_run oracle text true w)
    as (w1 & mid & ts & upd & Hrun1 & Hp1 & _).
  destruct (currentSession_add text true mid ts upd (provider w) Hsend)
    as (cur & before & Hbefore & Hadded & Hid).
  set (T := match s_messages before with [] => titleOf text | _ :: _ => s_title before end).
  assert (∃ s, currentSession (provider (snd (callAddMessage oracle text true w))) = Some s ∧
               s_title s = T ∧ s_messages s ≠ []) as H1.
  { rewrite Hrun1. cbn [snd]. rewrite Hp1, Hadded.
    eexists. split; [reflexivity|]. unfold appendTo. apply String.eqb_eq in Hid.
    rewrite Hid. simpl. unfold T. split; by destruct (s_messages before). }
  destruct (handleSendMessage_frame oracle
              (λ st, ∃ s, currentSession st = Some s ∧ s_title s = T ∧ s_messages s ≠ [])
              (titled_add T) (titled_update T) answer text w H1)
    as (w' & errors & Hrun & (after & Hafter & Htitle & _) & _).
  exists before, after. rewrite Hrun. cbn [snd].
  split; [exact Hbefore|]. split; [exact Hafter|exact Htitle].
Qed.

End SendsMore.

Lemma send_leaves_other_sessions_witness :
  chatSessions
    (provider (snd (handleSendMessage exampleOracle (streamOf [withNewline (contentLine "ok")])
                      "hi" (worldOf twoChats)))) !! 1
  = chatSessions twoMessages !! 0.
Proof.
  apply (send_leaves_other_sessions exampleOracle
           (streamOf [withNewline (contentLine "ok")]) "hi" (worldOf twoChats) 1);
    reflexivity.
Defined.

Lemma send_without_current_session_witness :
  provider (snd (handleSendMessage exampleOracle (streamOf [withNewline (contentLine "ok")])
                   "hi" (worldOf (selectChatSession "chat-404" freshProvider))))
  = selectChatSession "chat-404" freshProvider.
Proof.
  apply (send_without_current_session exampleOracle
           (streamOf [withNewline (contentLine "ok")]) "hi"
           (worldOf (selectChatSession "chat-404" freshProvider))).
  reflexivity.
Defined.

Lemma transport_failure_apologises_witness :
  ∃ userMsg aiMsg w',
    handleSendMessage exampleOracle (Rejects "Failed to fetch") "hi" freshWorld
      = (Returns tt, w') ∧
    currentChatMessages (provider w') =
      currentChatMessages (provider freshWorld) ++ [userMsg; aiMsg] ∧
    m_text userMsg = "hi" ∧ m_isUser userMsg = true ∧
    m_text aiMsg = APOLOGY ∧ m_isUser aiMsg = false ∧
    toasts w' = toasts freshWorld ++ [LoadingShown (length (toasts freshWorld)) LOADING_TOAST;
                                      ErrorShown ERROR_TOAST;
                                      Dismissed (length (toasts freshWorld))] ∧
    isSendingMessage w' = false.
Proof.
  apply (transport_failure_apologises exampleOracle (Rejects "Failed to fetch") "hi" freshWorld);
    [reflexivity | left; exists "Failed to fetch"; reflexivity].
Defined.

Lemma read_failure_discards_partial_text_witness :
  ∃ userMsg aiMsg w',
    handleSendMessage exampleOracle
      (Responds (mkResponse 200 (Some (firstReads ++ ReadFails "network error" :: laterReads))))
      "hi" freshWorld = (Returns tt, w') ∧
    currentChatMessages (provider w') =
      currentChatMessages (provider freshWorld) ++ [userMsg; aiMsg] ∧
    m_text userMsg = "hi" ∧ m_isUser userMsg = true ∧
    m_text aiMsg = APOLOGY ∧ m_isUser aiMsg = false ∧
    toasts w' = toasts freshWorld ++ [LoadingShown (length (toasts freshWorld)) LOADING_TOAST;
                                      ErrorShown ERROR_TOAST;
                                      Dismissed (length (toasts freshWorld))] ∧
    isSendingMessage w' = false.
Proof.
  apply (read_failure_discards_partial_text exampleOracle "hi" freshWorld
           (mkResponse 200 (Some (firstReads ++ ReadFails "network error" :: laterReads)))
           firstReads "network error" laterReads); reflexivity.
Defined.

Lemma reads_accumulate_witness :
  accumulatedContent
    (snd (handleSendMessage exampleOracle (readsOf (firstReads ++ laterReads)) "hi" freshWorld))
  = accumulatedContent
      (snd (handleSendMessage exampleOracle (readsOf firstReads) "hi" freshWorld)) +:+
    accumulatedContent
      (snd (handleSendMessage exampleOracle (readsOf laterReads) "hi" freshWorld)).
Proof.
  apply (reads_accumulate exampleOracle "hi" freshWorld firstReads laterReads); reflexivity.
Defined.

Lemma lines_after_break_skipped_witness :
  forLines exampleOracle ([contentLine "Hel"] ++ doneLine :: [contentLine "lo"]) freshWorld
  = forLines exampleOracle ([contentLine "Hel"] ++ [doneLine]) freshWorld.
Proof.
  apply (lines_after_break_skipped exampleOracle doneLine [contentLine "Hel"]
           [contentLine "lo"] freshWorld).
  intros w0. rewrite processLine_run.
  assert (lineAction doneLine = Silent true) as -> by (vm_compute; reflexivity).
  reflexivity.
Defined.

Lemma stream_without_data_lines_fails_witness :
  ∃ userMsg aiMsg w',
    handleSendMessage exampleOracle (streamOf keepAlives) "hi" freshWorld = (Returns tt, w') ∧
    currentChatMessages (provider w') =
      currentChatMessages (provider freshWorld) ++ [userMsg; aiMsg] ∧
    m_text userMsg = "hi" ∧ m_isUser userMsg = true ∧
    m_text aiMsg = APOLOGY ∧ m_isUser aiMsg = false ∧
    toasts w' = toasts freshWorld ++ [LoadingShown (length (toasts freshWorld)) LOADING_TOAST;
                                      ErrorShown ERROR_TOAST;
                                      Dismissed (length (toasts freshWorld))] ∧
    isSendingMessage w' = false.
Proof.
  apply (stream_without_data_lines_fails exampleOracle "hi" freshWorld
           (mkResponse 200 (Some (map Chunk keepAlives))) keepAlives); reflexivity.
Defined.

Lemma send_titles_empty_session_witness :
  ∃ before after,
    currentSession (provider freshWorld) = Some before ∧
    currentSession
      (provider (snd (handleSendMessage exampleOracle (Rejects "Failed to fetch")
                        "write a hello world program in Rust" freshWorld))) = Some after ∧
    s_title after =
      match s_messages before with
      | [] => titleOf "write a hello world program in Rust"
      | _ :: _ => s_title before
      end.
Proof.
  apply (send_titles_empty_session exampleOracle (Rejects "Failed to fetch")
           "write a hello world program in Rust" freshWorld).
  reflexivity.
Defined.

(** * The page: what the user can reach *)

#[local] Arguments handleSendMessage : simpl never.

Section Page.

Variable isMobile : bool.
Variable oracle : Oracle.

Implicit Types (app : App) (st : Provider).

Lemma send_currentKnown answer text w :
  currentKnown (provider w) = true →
  currentKnown (provider (snd (handleSendMessage oracle answer text w))) = true.
Proof.
  intros Hk.
  set (P := λ st, currentKnown st = true).
  assert (∀ t u mid ts upd st, P st → P (addMessageToCurrentChat t u mid ts upd st)) as Hadd.
  { intros t u mid ts upd st HP. unfold P, currentKnown in *. rewrite addMessage_current.
    destruct (currentChatSessionId st); [|done]. by rewrite addMessage_knownId. }
  assert (∀ t ts upd st, P st → P (updateLastAIMessage t ts upd st)) as Hupd.
  { intros t ts upd st HP. unfold P, currentKnown in *. rewrite updateLast_current.
    destruct (currentChatSessionId st); [|done]. by rewrite updateLast_knownId. }
  destruct (handleSendMessage_frame oracle P Hadd Hupd answer text w)
    as (w' & errors & Hrun & HP & _).
  { apply Hadd. exact Hk. }
  rewrite Hrun. exact HP.
Qed.

Lemma lookup_knownId st i session :
  chatSessions st !! i = Some session → knownId (s_id session) st = true.
Proof.
  intros Hi. unfold knownId. apply existsb_exists. exists session.
  split; [|apply String.eqb_refl].
  apply list_elem_of_In, list_elem_of_lookup. by exists i.
Qed.

Lemma uiStep_currentKnown e app :
  currentKnown (provider (world app)) = true →
  currentKnown (provider (world (uiStep isMobile oracle e app))) = true.
Proof.
  intros Hk. unfold uiStep.
  destruct (isLoading (provider (world app))); [done|].
  destruct e as [text|answer| |now|i].
  - by destruct (isSendingMessage (world app)).
  - unfold handleSubmit. destruct (_ && _); [|exact Hk].
    cbn [setInput setWorld world]. apply send_currentKnown. exact Hk.
  - done.
  - destruct (isSidebarOpen app); [|done].
    unfold handleNewChat, onClose. destruct isMobile; simpl;
      unfold currentKnown, knownId; simpl; by rewrite String.eqb_refl.
  - destruct (isSidebarOpen app); [|done].
    destruct (chatSessions (provider (world app)) !! i) as [session|] eqn:Hi; [|done].
    unfold handleSelectChat, onClose.
    destruct isMobile; simpl; unfold currentKnown; simpl;
      change (knownId (s_id session) (provider (world app)) = true);
      by apply (lookup_knownId _ i).
Qed.

(** X25.  Through the page the current id never dangles: after the mount
    effect on any history, and after any sequence of inputs, submissions and
    clicks, each send running to its end before the next event, the current
    id is the id of a session of the list.  (The side bar offers only the
    sessions of the list.) *)
Theorem page_current_never_dangles history now events :
  currentKnown (provider (world (runUI isMobile oracle events (mountedApp history now)))) = true.
Proof.
  assert (currentKnown (provider (world (mountedApp history now))) = true) as Hinit.
  { apply initialize_currentKnown. }
  revert Hinit. generalize (mountedApp history now).
  induction events as [|e events IH]; intros app Hk; [exact Hk|].
  change (runUI isMobile oracle (e :: events) app)
    with (runUI isMobile oracle events (uiStep isMobile oracle e app)).
  apply IH, uiStep_currentKnown, Hk.
Qed.

(** The state in which the page can send. *)
Lemma idsNonEmpty_ids l1 l2 :
  s_id <$> l1 = s_id <$> l2 → idsNonEmpty l1 = idsNonEmpty l2.
Proof.
  revert l2. induction l1 as [|x l1 IH]; intros [|y l2] Heq; try done.
  simpl in Heq. injection Heq as Hxy Hrest. simpl. by rewrite Hxy, (IH l2 Hrest).
Qed.

Lemma idsNonEmpty_lookup l i session :
  idsNonEmpty l = true → l !! i = Some session → String.eqb (s_id session) "" = false.
Proof.
  intros Hall Hi. unfold idsNonEmpty in Hall. rewrite forallb_forall in Hall.
  apply negb_true_iff, Hall, list_elem_of_In, list_elem_of_lookup. by exists i.
Qed.

Lemma send_ready answer text w :
  sendable (provider w) = true ∧ idsNonEmpty (chatSessions (provider w)) = true ∧
    isLoading (provider w) = false →
  ∃ w', handleSendMessage oracle answer text w = (Returns tt, w') ∧
        (sendable (provider w') = true ∧ idsNonEmpty (chatSessions (provider w')) = true ∧
           isLoading (provider w') = false) ∧
        isSendingMessage w' = false.
Proof.
  intros Hready.
  set (P := λ st, sendable st = true ∧ idsNonEmpty (chatSessions st) = true ∧
                  isLoading st = false).
  assert (∀ t u mid ts upd st, P st → P (addMessageToCurrentChat t u mid ts upd st)) as Hadd.
  { intros t u mid ts upd st (Hs & Hi & Hl).
    destruct (addMessage_ids t u mid ts upd st) as [Hi' Hl'].
    unfold P. by rewrite addMessage_sendable, (idsNonEmpty_ids _ _ Hi'), Hl'. }
  assert (∀ t ts upd st, P st → P (updateLastAIMessage t ts upd st)) as Hupd.
  { intros t ts upd st (Hs & Hi & Hl).
    destruct (updateLast_ids t ts upd st) as [Hi' Hl'].
    unfold P. rewrite (idsNonEmpty_ids _ _ Hi'), Hl'. split; [|done].
    unfold sendable in *. rewrite updateLast_current.
    destruct (currentChatSessionId st); [|done]. by rewrite updateLast_knownId. }
  destruct (handleSendMessage_frame oracle P Hadd Hupd answer text w)
    as (w' & errors & Hrun & HP & Hflag & _).
  { apply Hadd. exact Hready. }
  exists w'. split; [exact Hrun|]. split; [exact HP|exact Hflag].
Qed.

Lemma uiStep_ready e app :
  (sendable (provider (world app)) = true ∧
   idsNonEmpty (chatSessions (provider (world app))) = true ∧
   isLoading (provider (world app)) = false) ∧
  isSendingMessage (world app) = false →
  (sendable (provider (world (uiStep isMobile oracle e app))) = true ∧
   idsNonEmpty (chatSessions (provider (world (uiStep isMobile oracle e app)))) = true ∧
   isLoading (provider (world (uiStep isMobile oracle e app))) = false) ∧
  isSendingMessage (world (uiStep isMobile oracle e app)) = false.
Proof.
  intros [Hready Hflag]. pose proof Hready as (Hs & Hids & Hl). unfold uiStep. rewrite Hl.
  destruct e as [text|answer| |now|i].
  - rewrite Hflag. split; [exact Hready|exact Hflag].
  - unfold handleSubmit. destruct (_ && _); [|split; [exact Hready|exact Hflag]].
    cbn [setInput setWorld world].
    destruct (send_ready answer (input app) (world app) Hready) as (w' & Hrun & HP & Hf).
    rewrite Hrun. cbn [snd]. split; [exact HP|exact Hf].
  - split; [exact Hready|exact Hflag].
  - destruct (isSidebarOpen app); [|split; [exact Hready|exact Hflag]].
    unfold handleNewChat, onClose.
    destruct isMobile; simpl; unfold sendable, knownId; simpl;
      by rewrite String.eqb_refl, Hids, Hl.
  - destruct (isSidebarOpen app); [|split; [exact Hready|exact Hflag]].
    destruct (chatSessions (provider (world app)) !! i) as [session|] eqn:Hi;
      [|split; [exact Hready|exact Hflag]].
    pose proof (idsNonEmpty_lookup _ _ _ Hids Hi) as Hne.
    pose proof (lookup_knownId _ _ _ Hi) as Hknown.
    unfold handleSelectChat, onClose.
    destruct isMobile; simpl; unfold sendable; simpl; rewrite Hne; simpl;
      by rewrite Hids, Hl, Hflag.
Qed.

Lemma mounted_ready history now :
  idsNonEmpty history = true →
  (sendable (provider (world (mountedApp history now))) = true ∧
   idsNonEmpty (chatSessions (provider (world (mountedApp history now)))) = true ∧
   isLoading (provider (world (mountedApp history now))) = false) ∧
  isSendingMessage (world (mountedApp history now)) = false.
Proof.
  intros Hids. destruct history as [|first rest].
  - unfold sendable, knownId. simpl. by rewrite String.eqb_refl.
  - unfold sendable, knownId. simpl in *.
    apply andb_true_iff in Hids as [Hfirst Hrest].
    by rewrite Hfirst, Hrest, String.eqb_refl.
Qed.

(** X26.  From the page to the view.  After the mount effect on a history
    whose session ids are not empty, and after any sequence of inputs,
    submissions and clicks, each send running to its end before the next
    event, submitting the form with an input that is not blank sends the
    input as it is: the view gains the user message with that
    text and then an assistant message with the reply, or with the apology on
    the failure path; the input field is emptied and nothing is being sent
    any more. *)
Theorem page_submit_shows_message history now events answer :
  idsNonEmpty history = true →
  trim (input (runUI isMobile oracle events (mountedApp history now))) ≠ EmptyString →
  ∃ userMsg aiMsg,
    currentChatMessages
      (provider (world (uiStep isMobile oracle (SubmitForm answer)
                          (runUI isMobile oracle events (mountedApp history now))))) =
    currentChatMessages
      (provider (world (runUI isMobile oracle events (mountedApp history now))))
      ++ [userMsg; aiMsg] ∧
    m_text userMsg = input (runUI isMobile oracle events (mountedApp history now)) ∧
    m_isUser userMsg = true ∧ m_isUser aiMsg = false ∧
    m_text aiMsg = default APOLOGY (reply answer) ∧
    input (uiStep isMobile oracle (SubmitForm answer)
             (runUI isMobile oracle events (mountedApp history now))) = EmptyString ∧
    isSendingMessage
      (world (uiStep isMobile oracle (SubmitForm answer)
                (runUI isMobile oracle events (mountedApp history now)))) = false.
Proof.
  intros Hids.
  pose proof (mounted_ready history now Hids) as Hinit.
  revert Hinit. generalize (mountedApp history now).
  induction events as [|e events IH]; intros app Hready Hinput.
  - change (runUI isMobile oracle [] app) with app in *.
    destruct Hready as [(Hs & Hi & Hl) Hflag].
    unfold uiStep, handleSubmit. rewrite Hl, Hflag.
    apply String.eqb_neq in Hinput. rewrite Hinput. cbn [negb andb].
    cbn [setInput setWorld world input].
    destruct (handleSendMessage_spec oracle answer (input app) (world app) Hs)
      as (userMsg & aiMsg & w' & Hrun & Hmsgs & Htext & Huser & Hai & Hreply & _ & Hf & _).
    rewrite Hrun. cbn [snd]. exists userMsg, aiMsg.
    split; [exact Hmsgs|]. split; [exact Htext|]. split; [exact Huser|].
    split; [exact Hai|]. split; [exact Hreply|]. split; [reflexivity|exact Hf].
  - change (runUI isMobile oracle (e :: events) app)
      with (runUI isMobile oracle events (uiStep isMobile oracle e app)) in *.
    apply IH; [|exact Hinput]. apply uiStep_ready, Hready.
Qed.

End Page.

Lemma page_submit_shows_message_witness :
  ∃ userMsg aiMsg,
    currentChatMessages
      (provider (world (uiStep true exampleOracle (SubmitForm contentThenError)
                          (runUI true exampleOracle
                             [ClickNewChat 5; ClickToggle; ClickChat 1; TypeInput " hi "]
                             (mountedApp exampleHistory 0))))) =
    currentChatMessages
      (provider (world (runUI true exampleOracle
                          [ClickNewChat 5; ClickToggle; ClickChat 1; TypeInput " hi "]
                          (mountedApp exampleHistory 0))))
      ++ [userMsg; aiMsg] ∧
    m_text userMsg = input (runUI true exampleOracle
                              [ClickNewChat 5; ClickToggle; ClickChat 1; TypeInput " hi "]
                              (mountedApp exampleHistory 0)) ∧
    m_isUser userMsg = true ∧ m_isUser aiMsg = false ∧
    m_text aiMsg = default APOLOGY (reply contentThenError) ∧
    input (uiStep true exampleOracle (SubmitForm contentThenError)
             (runUI true exampleOracle
                [ClickNewChat 5; ClickToggle; ClickChat 1; TypeInput " hi "]
                (mountedApp exampleHistory 0))) = EmptyString ∧
    isSendingMessage
      (world (uiStep true exampleOracle (SubmitForm contentThenError)
                (runUI true exampleOracle
                   [ClickNewChat 5; ClickToggle; ClickChat 1; TypeInput " hi "]
                   (mountedApp exampleHistory 0)))) = false.
Proof.
  apply (page_submit_shows_message true exampleOracle exampleHistory 0
           [ClickNewChat 5; ClickToggle; ClickChat 1; TypeInput " hi "] contentThenError).
  - reflexivity.
  - vm_compute. discriminate.
Defined.

(** ** Rendering a message *)

Lemma substring_slice (n : nat) (s : string) :
  String.substring 0 n s +:+ slice_from n s = s.
Proof.
  revert s; induction n as [|n IH]; intros [|c s]; cbn; try reflexivity.
  by rewrite IH.
Qed.

Lemma substring_app_l (a b : string) :
  String.substring 0 (String.length a) (a +:+ b) = a.
Proof.
  induction a as [|c a IH]; cbn.
  - by destruct b.
  - by rewrite IH.
Qed.

Lemma slice_from_app (a b : string) : slice_from (String.length a) (a +:+ b) = b.
Proof. induction a as [|c a IH]; cbn; [reflexivity|exact IH]. Qed.

Lemma substring_all (b : string) : String.substring 0 (String.length b) b = b.
Proof. induction b as [|c b IH]; cbn; [reflexivity|by rewrite IH]. Qed.

Lemma substring_app_r (a b : string) :
  String.substring (String.length a) (String.length b) (a +:+ b) = b.
Proof. induction a as [|c a IH]; cbn; [apply substring_all|exact IH]. Qed.

Lemma substring_skip (a b : string) (n : nat) :
  String.substring (String.length a) n (a +:+ b) = String.substring 0 n b.
Proof. induction a as [|c a IH]; cbn; [reflexivity|exact IH]. Qed.

Lemma concat_empty_cons (x : string) (xs : list string) :
  String.concat EmptyString (x :: xs) = x +:+ String.concat EmptyString xs.
Proof.
  destruct xs as [|y ys]; cbn [String.concat].
  - by rewrite append_nil_r.
  - reflexivity.
Qed.

Lemma matchFence_app (s block rest : string) :
  matchFence s = Some (block, rest) → block +:+ rest = s.
Proof.
  unfold matchFence. destruct (startsWith FENCE s); [|discriminate].
  destruct (indexOfFence (slice_from 3 s)) as [i|]; [|discriminate].
  intros [= <- <-]. apply substring_slice.
Qed.

Lemma splitFencesFrom_concat (fuel : nat) (pending s : string) :
  String.concat EmptyString (splitFencesFrom fuel pending s) = pending +:+ s.
Proof.
  revert pending s; induction fuel as [|fuel IH]; intros pending s.
  - reflexivity.
  - cbn [splitFencesFrom]. destruct (matchFence s) as [[block rest]|] eqn:Hm.
    + rewrite !concat_empty_cons, IH. cbn [String.append].
      by rewrite (matchFence_app _ _ _ Hm).
    + destruct s as [|c r].
      * cbn [String.concat]. by rewrite append_nil_r.
      * rewrite IH, append_assoc. reflexivity.
Qed.

Lemma startsWith_other (c : ascii) (s : string) :
  Ascii.eqb c "`" = false → startsWith FENCE (String c s) = false.
Proof.
  intros H. unfold startsWith, FENCE. cbn [String.prefix].
  destruct (ascii_dec "`" c) as [<-|]; [discriminate|reflexivity].
Qed.

Lemma startsWith_fence (rest : string) : startsWith FENCE (FENCE +:+ rest) = true.
Proof.
  unfold startsWith, FENCE. cbn [String.append String.prefix].
  destruct (ascii_dec "`" "`"); [|done]. by destruct rest.
Qed.

Lemma noBackquote_startsWith (s : string) :
  noBackquote s = true → startsWith FENCE s = false.
Proof.
  destruct s as [|c s]; [reflexivity|].
  cbn [noBackquote]. intros [Hc _]%andb_prop.
  apply startsWith_other. by apply negb_true_iff.
Qed.

Lemma noBackquote_matchFence (s : string) :
  noBackquote s = true → matchFence s = None.
Proof. intros H. unfold matchFence. by rewrite noBackquote_startsWith. Qed.

Lemma splitFencesFrom_plain (fuel : nat) (pending s : string) :
  noBackquote s = true → splitFencesFrom fuel pending s = [pending +:+ s].
Proof.
  revert pending s; induction fuel as [|fuel IH]; intros pending s Hs.
  - reflexivity.
  - cbn [splitFencesFrom]. rewrite noBackquote_matchFence by exact Hs.
    destruct s as [|c r].
    + by rewrite append_nil_r.
    + cbn in Hs. apply andb_prop in Hs as [_ Hr].
      rewrite IH by exact Hr. by rewrite append_assoc.
Qed.

Lemma renderPart_plain (part : string) :
  noBackquote part = true → renderPart part = Paragraph part.
Proof. intros H. unfold renderPart. by rewrite noBackquote_startsWith. Qed.

Lemma indexOfFence_app (body rest : string) :
  noBackquote body = true →
  indexOfFence (body +:+ FENCE +:+ rest) = Some (String.length body).
Proof.
  induction body as [|c body IH]; intros Hb.
  - change (EmptyString +:+ ?x) with x. unfold FENCE at 1.
    cbn [String.append indexOfFence]. fold FENCE.
    change (String "`" (String "`" (String "`" rest))) with (FENCE +:+ rest).
    by rewrite startsWith_fence.
  - cbn in Hb. apply andb_prop in Hb as [Hc Hb].
    cbn [String.append indexOfFence String.length].
    rewrite IH by exact Hb.
    rewrite startsWith_other by (by apply negb_true_iff).
    reflexivity.
Qed.

Lemma matchFence_block (body rest : string) :
  noBackquote body = true →
  matchFence (FENCE +:+ body +:+ FENCE +:+ rest)
  = Some (FENCE +:+ body +:+ FENCE, rest).
Proof.
  intros Hb. unfold matchFence.
  rewrite startsWith_fence.
  replace (slice_from 3 (FENCE +:+ body +:+ FENCE +:+ rest))
    with (body +:+ FENCE +:+ rest) by reflexivity.
  rewrite indexOfFence_app by exact Hb.
  replace (3 + String.length body + 3) with (String.length (FENCE +:+ body +:+ FENCE)).
  - replace (FENCE +:+ body +:+ FENCE +:+ rest)
      with ((FENCE +:+ body +:+ FENCE) +:+ rest).
    + by rewrite substring_app_l, slice_from_app.
    + rewrite !append_assoc. reflexivity.
  - rewrite !append_length. reflexivity.
Qed.

Lemma splitFencesFrom_block (fuel : nat) (pending before body after : string) :
  noBackquote before = true → noBackquote body = true → noBackquote after = true →
  String.length before < fuel →
  splitFencesFrom fuel pending (before +:+ FENCE +:+ body +:+ FENCE +:+ after)
  = [pending +:+ before; FENCE +:+ body +:+ FENCE; after].
Proof.
  intros Hbefore Hbody Hafter. revert fuel pending.
  induction before as [|c before IH]; intros fuel pending Hfuel.
  - destruct fuel as [|fuel]; [cbn in Hfuel; lia|].
    cbn [splitFencesFrom]. change (EmptyString +:+ ?x) with x.
    rewrite matchFence_block by exact Hbody.
    rewrite splitFencesFrom_plain by exact Hafter.
    by rewrite append_nil_r.
  - destruct fuel as [|fuel]; [cbn in Hfuel; lia|].
    cbn in Hbefore. apply andb_prop in Hbefore as [Hc Hbefore].
    cbn [splitFencesFrom String.append].
    replace (matchFence (String c (before +:+ FENCE +:+ body +:+ FENCE +:+ after)))
      with (@None (string * string)).
    + rewrite IH; [|exact Hbefore|cbn in Hfuel; lia].
      by rewrite append_assoc.
    + unfold matchFence. rewrite startsWith_other by (by apply negb_true_iff).
      reflexivity.
Qed.

Lemma endsWith_fence (x : string) : endsWith FENCE (x +:+ FENCE) = true.
Proof.
  unfold endsWith. rewrite append_length.
  change (String.length FENCE) with 3.
  replace (String.length x + 3 - 3) with (String.length x) by lia.
  replace (String.substring (String.length x) 3 (x +:+ FENCE)) with FENCE
    by (symmetry; apply (substring_app_r x FENCE)).
  replace (3 <=? String.length x + 3) with true by (symmetry; apply Nat.leb_le; lia).
  reflexivity.
Qed.

Lemma jsSubstring_inside (body : string) :
  jsSubstring 3 (Z.of_nat (String.length (FENCE +:+ body +:+ FENCE)) - 3)
    (FENCE +:+ body +:+ FENCE) = body.
Proof.
  unfold jsSubstring. rewrite !append_length.
  change (String.length FENCE) with 3.
  set (n := String.length body).
  replace (Z.to_nat (Z.min (Z.max 3 0) (Z.of_nat (3 + (n + 3))))) with 3 by lia.
  replace (Z.to_nat (Z.min (Z.max (Z.of_nat (3 + (n + 3)) - 3) 0)
                       (Z.of_nat (3 + (n + 3))))) with (n + 3) by lia.
  replace (Nat.min 3 (n + 3)) with 3 by lia.
  replace (Nat.max 3 (n + 3) - 3) with n by lia.
  exact (eq_trans (substring_skip FENCE (body +:+ FENCE) n)
           (substring_app_l body FENCE)).
Qed.

Lemma wordChar_not_space (c : ascii) : isWordChar c = true → isSpace c = false.
Proof. by destruct c as [[] [] [] [] [] [] [] []]. Qed.

Lemma append_empty (a b : string) : a +:+ b = EmptyString → a = EmptyString ∧ b = EmptyString.
Proof. destruct a; cbn [String.append]; [by intros ->|discriminate]. Qed.

Lemma trimEnd_app (a b : string) :
  trimEnd b ≠ EmptyString → trimEnd (a +:+ b) = a +:+ trimEnd b.
Proof.
  intros Hb. induction a as [|c a IH]; [reflexivity|].
  cbn [String.append trimEnd]. rewrite IH.
  destruct (String.eqb_spec (a +:+ trimEnd b) EmptyString) as [E|_].
  - by apply append_empty in E as [_ E].
  - by rewrite andb_false_r.
Qed.

Lemma trimEnd_app_blank (a b : string) :
  trimEnd b = EmptyString → trimEnd (a +:+ b) = trimEnd a.
Proof.
  intros Hb. induction a as [|c a IH]; [exact Hb|].
  cbn [String.append trimEnd]. by rewrite IH.
Qed.

Lemma trimEnd_word (w : string) : allWordChars w = true → trimEnd w = w.
Proof.
  induction w as [|c w IH]; [reflexivity|].
  cbn [allWordChars trimEnd]. intros [Hc Hw]%andb_prop.
  by rewrite (wordChar_not_space _ Hc), IH.
Qed.

Lemma trimEnd_trimStart (s : string) :
  trimEnd s = EmptyString → trimEnd (trimStart s) = EmptyString.
Proof.
  induction s as [|c s IH]; [reflexivity|].
  cbn [trimEnd trimStart]. destruct (isSpace c); [|discriminate].
  destruct (String.eqb_spec (trimEnd s) EmptyString) as [E|_]; [|discriminate].
  intros _. by apply IH.
Qed.

Lemma trimEnd_idem_empty (s : string) :
  trimEnd (trimStart s) = EmptyString → trimEnd s = EmptyString.
Proof.
  induction s as [|c s IH]; [reflexivity|].
  cbn [trimStart]. destruct (isSpace c) eqn:Hc.
  - intros H. cbn [trimEnd]. by rewrite Hc, (IH H).
  - exact id.
Qed.

Lemma scanWord_line (w rest : string) :
  allWordChars w = true →
  scanWord (w +:+ String NEWLINE rest) = (w, String NEWLINE rest).
Proof.
  induction w as [|c w IH]; [reflexivity|].
  cbn [allWordChars String.append scanWord]. intros [Hc Hw]%andb_prop.
  by rewrite Hc, IH.
Qed.

Lemma scanWord_word (w : string) :
  allWordChars w = true → scanWord w = (w, EmptyString).
Proof.
  induction w as [|c w IH]; [reflexivity|].
  cbn [allWordChars scanWord]. intros [Hc Hw]%andb_prop.
  by rewrite Hc, IH.
Qed.

Lemma slice_from_line (w rest : string) :
  slice_from (S (String.length w)) (w +:+ String NEWLINE rest) = rest.
Proof. induction w as [|c w IH]; [reflexivity|exact IH]. Qed.

Lemma trimStart_word (c : ascii) (w rest : string) :
  isWordChar c = true → trimStart (String c w +:+ rest) = String c w +:+ rest.
Proof. intros Hc. cbn [String.append trimStart]. by rewrite (wordChar_not_space _ Hc). Qed.

(** How the block of [fencedMessage] is rendered. *)
Lemma renderPart_block (language code : string) :
  language ≠ EmptyString → allWordChars language = true →
  renderPart (FENCE +:+ (language +:+ String NEWLINE code) +:+ FENCE)
  = if String.eqb (trim code) EmptyString then CodeBlock "javascript" language
    else CodeBlock language (trimEnd code).
Proof.
  intros Hne Hw. unfold renderPart.
  rewrite startsWith_fence.
  replace (FENCE +:+ (language +:+ String NEWLINE code) +:+ FENCE)
    with ((FENCE +:+ language +:+ String NEWLINE code) +:+ FENCE)
    by (by rewrite !append_assoc).
  rewrite endsWith_fence. cbn [andb].
  replace ((FENCE +:+ language +:+ String NEWLINE code) +:+ FENCE)
    with (FENCE +:+ (language +:+ String NEWLINE code) +:+ FENCE)
    by (by rewrite !append_assoc).
  rewrite jsSubstring_inside.
  destruct language as [|c w]; [done|].
  pose proof Hw as Hw'. cbn [allWordChars] in Hw'. apply andb_prop in Hw' as [Hc _].
  assert (Hcontent : trim (String c w +:+ String NEWLINE code)
            = if String.eqb (trim code) EmptyString then String c w
              else String c w +:+ String NEWLINE (trimEnd code)).
  { unfold trim at 1. rewrite (trimStart_word _ _ _ Hc).
    destruct (String.eqb_spec (trim code) EmptyString) as [Hblank|Hcode].
    - apply trimEnd_idem_empty in Hblank.
      rewrite trimEnd_app_blank; [exact (trimEnd_word _ Hw)|].
      cbn [trimEnd]. by rewrite Hblank.
    - assert (Hend : trimEnd code ≠ EmptyString).
      { intros E. apply Hcode. by apply trimEnd_trimStart. }
      assert (Hline : trimEnd (String NEWLINE code) = String NEWLINE (trimEnd code)).
      { cbn [trimEnd]. by destruct (String.eqb_spec (trimEnd code) EmptyString). }
      rewrite trimEnd_app by (by rewrite Hline).
      by rewrite Hline. }
  rewrite Hcontent. destruct (String.eqb (trim code) EmptyString).
  - unfold languageMatch. by rewrite (scanWord_word _ Hw).
  - unfold languageMatch. rewrite (scanWord_line _ _ Hw).
    replace (Ascii.eqb NEWLINE NEWLINE) with true by (by rewrite Ascii.eqb_refl).
    by rewrite slice_from_line.
Qed.

(** X27.  The parts [renderMessageContent] cuts a message into are the whole
    message: joined in order they give the text back, so no character is
    dropped, repeated or moved by the split. *)
Theorem split_keeps_text (text : string) :
  String.concat EmptyString (splitFences text) = text.
Proof. unfold splitFences. by rewrite splitFencesFrom_concat. Qed.

(** X28.  A message without a backquote is rendered as one paragraph holding
    the whole text, the empty message included. *)
Theorem plain_text_one_paragraph (text : string) :
  noBackquote text = true →
  renderMessageContent text = [Paragraph text].
Proof.
  intros H. unfold renderMessageContent, splitFences.
  rewrite splitFencesFrom_plain by exact H.
  cbn [map String.append]. by rewrite renderPart_plain.
Qed.

Lemma plain_text_one_paragraph_witness :
  noBackquote "hello" = true ∧ renderMessageContent "hello" = [Paragraph "hello"].
Proof. split; [reflexivity|apply plain_text_one_paragraph; reflexivity]. Defined.

(** X29.  A message with one fenced block, whose first line is a language
    name, is rendered as the paragraph before, the block, the paragraph after.
    The block is highlighted in the named language and holds the code without
    the language line and without trailing white space; when nothing but
    white space follows the language line, the name itself is shown as
    javascript code. *)
Theorem fenced_block_rendered (before language code after : string) :
  noBackquote before = true → noBackquote code = true → noBackquote after = true →
  language ≠ EmptyString → allWordChars language = true →
  renderMessageContent (fencedMessage before language code after)
  = [Paragraph before;
     if String.eqb (trim code) EmptyString then CodeBlock "javascript" language
     else CodeBlock language (trimEnd code);
     Paragraph after].
Proof.
  intros Hbefore Hcode Hafter Hne Hw.
  assert (Hbody : noBackquote (language +:+ String NEWLINE code) = true).
  { clear Hne. induction language as [|c w IH].
    - cbn [String.append noBackquote]. by rewrite Hcode.
    - cbn [allWordChars] in Hw. apply andb_prop in Hw as [Hc Hw].
      cbn [String.append noBackquote]. rewrite (IH Hw), andb_true_r.
      by destruct c as [[] [] [] [] [] [] [] []]. }
  unfold renderMessageContent, splitFences, fencedMessage.
  replace (before +:+ FENCE +:+ language +:+ String NEWLINE code +:+ FENCE +:+ after)
    with (before +:+ FENCE +:+ (language +:+ String NEWLINE code) +:+ FENCE +:+ after)
    by (by rewrite !append_assoc).
  rewrite splitFencesFrom_block; [|exact Hbefore|exact Hbody|exact Hafter|].
  - cbn [map]. change (EmptyString +:+ before) with before.
    rewrite (renderPart_plain before Hbefore), (renderPart_plain after Hafter).
    by rewrite (renderPart_block language code Hne Hw).
  - rewrite append_length. lia.
Qed.

Lemma fenced_block_rendered_witness :
  renderMessageContent
    (fencedMessage "Try: " "python" ("print(1)" +:+ String NEWLINE EmptyString) " Done.")
  = [Paragraph "Try: "; CodeBlock "python" "print(1)"; Paragraph " Done."].
Proof.
  apply (fenced_block_rendered "Try: " "python"
           ("print(1)" +:+ String NEWLINE EmptyString) " Done.");
    [reflexivity|reflexivity|reflexivity|discriminate|reflexivity].
Defined.










